(** * WheatCloudSleep server: command codec and connection actor

    A shallow embedding of
      - [Source/Server/CloudSleepServer/WheatCommand.cpp]
        (class [WheatCommandProgrammer]: [CutMessage], [Parse],
        [GetCommandTypeFromString], [MakeMessage]), and
      - [Source/Server/CloudSleepServer/sleeper.cpp]
        (class [wheat::Sleeper]: [Start], [Deliver], [MakeSelfInfo], the loops
        of [Reader] and [Writer], [Stop]; [MakeSleeperId]),
    followed by the properties of the protocol specification that concern
    them.

    Conventions of the embedding.
      - A NUL-terminated [const char*] and a [std::string] built from one are
        both the Rocq [string] of the characters before the terminator.
      - C++ [int] values are in [Z]. [atoi] is undefined outside the range of
        [int], and is modelled so. The counters of the loop of [CutMessage]
        ([remainKnives], and the indices [l] and [r], kept in [nat] since the
        loop keeps them within [0 .. len + 1]) move by one per character:
        they stay in range for every text shorter than 2^31 - 1 characters,
        which the embedding takes for granted.
      - A call that can leave the normal control flow returns an [outcome]:
        a value, a C++ exception, or undefined behaviour. *)

From Stdlib Require Import ZArith Ascii Lia Bool.
From Stdlib Require String.
From stdpp Require Import base option list strings pretty gmap.

Local Open Scope Z_scope.

(** ** Outcomes of a C++ call *)

Inductive exception : Type :=
| out_of_range            (* std::out_of_range, from std::string::substr *)
| other_exception (what : string).

Inductive outcome (A : Type) : Type :=
| Returns (a : A)
| Throws (e : exception)
| Undefined.                       (* undefined behaviour *)

Arguments Returns {A} a.
Arguments Throws {A} e.
Arguments Undefined {A}.

#[global] Instance outcome_ret : MRet outcome := fun A a => Returns a.

#[global] Instance outcome_bind : MBind outcome := fun A B k m =>
  match m with
  | Returns a => k a
  | Throws e => Throws e
  | Undefined => Undefined
  end.

(** ** The C and C++ library functions the code calls *)

(** [buf[r]] for [r <= strlen buf]: the character at [r], the terminating NUL
    at [r = strlen buf]. *)
Definition c_index (buf : string) (r : nat) : ascii :=
  match String.get r buf with
  | Some c => c
  | None => Ascii.zero
  end.

(** [s.substr(pos, count)]: throws [std::out_of_range] when [pos > s.size()],
    otherwise the characters [pos .. min (pos + count, size)). *)
Definition substr (s : string) (pos count : nat) : outcome string :=
  if (String.length s <? pos)%nat then Throws out_of_range
  else Returns (String.substring pos count s).

(** [s.substr(pos)]: the same with [count = npos], that is up to the end. *)
Definition substr_from (s : string) (pos : nat) : outcome string :=
  substr s pos (String.length s - pos).

(** [v[i]] on a [std::vector]: no bounds check, undefined behaviour out of
    range. *)
Definition vec_at {A : Type} (v : list A) (i : nat) : outcome A :=
  match v !! i with
  | Some x => Returns x
  | None => Undefined
  end.

(** [isspace] in the "C" locale: space, \t, \n, \v, \f, \r. *)
Definition isspace (c : ascii) : bool :=
  let n := nat_of_ascii c in
  (n =? 32)%nat || ((9 <=? n)%nat && (n <=? 13)%nat).

Definition digit_of (c : ascii) : option Z :=
  let n := nat_of_ascii c in
  if ((48 <=? n)%nat && (n <=? 57)%nat) then Some (Z.of_nat n - 48) else None.

Fixpoint skip_spaces (s : string) : string :=
  match s with
  | String c s' => if isspace c then skip_spaces s' else s
  | EmptyString => s
  end.

(** The value of the longest prefix of decimal digits, [acc] being the value
    of the digits already read. *)
Fixpoint read_digits (acc : Z) (s : string) : Z :=
  match s with
  | String c s' =>
      match digit_of c with
      | Some d => read_digits (10 * acc + d) s'
      | None => acc
      end
  | EmptyString => acc
  end.

Definition INT_MIN : Z := - 2 ^ 31.
Definition INT_MAX : Z := 2 ^ 31 - 1.

(** [atoi]: leading white space, an optional sign, then the longest run of
    digits; [0] when there is none. The C standard leaves the behaviour
    undefined when the value does not fit an [int]. *)
Definition atoi (s : string) : outcome Z :=
  let v :=
    match skip_spaces s with
    | String "-" s' => - read_digits 0 s'
    | String "+" s' => read_digits 0 s'
    | s' => read_digits 0 s'
    end in
  if (INT_MIN <=? v) && (v <=? INT_MAX) then Returns v else Undefined.

(** ** WheatCommand.cpp *)

Module WheatCommandType.
Inductive t : Type :=
| name | type | sleep | getup | chat | move | pos | unknown.
End WheatCommandType.

(** Modelled from the spec: the declaration of [struct WheatCommand]
    (WheatCommand.h) is not among the sources. The fields are the ones [Parse]
    assigns: [type], [nParam[0]], [nParam[1]] and [strParam]. An [nParam] slot
    that [Parse] never writes is [None]; [strParam] is default-constructed
    empty. *)
Record WheatCommand : Type := mkWheatCommand {
  type : WheatCommandType.t;
  nParam0 : option Z;
  nParam1 : option Z;
  strParam : string
}.

Module WheatCommandProgrammer.
(** The body of the [for] loop of the four-argument [CutMessage], iterated
    for the [k] values of [r] that remain up to [len] included. The [break]
    is the branch that does not recurse. *)
Fixpoint CutMessage_for (k : nat) (buf strTemp : string) (len : nat)
    (delimiterChar : ascii) (l r : nat) (remainKnives : Z)
    (result : list string) : outcome (list string) :=
  match k with
  | O => Returns result
  | S k' =>
      if Ascii.eqb (c_index buf r) delimiterChar || (r =? len)%nat then
        if remainKnives =? 0 then
          piece ← substr_from strTemp l;
          Returns (result ++ [piece])
        else
          piece ← substr strTemp l (r - l);
          CutMessage_for k' buf strTemp len delimiterChar
            (r + 1)%nat (r + 1)%nat (remainKnives - 1) (result ++ [piece])
      else
        CutMessage_for k' buf strTemp len delimiterChar
          l (r + 1)%nat remainKnives result
  end.

(** [CutMessage(buf, len, delimiterChar, pieces)], for [len <= strlen buf]. *)
Definition CutMessage_len (buf : string) (len : nat) (delimiterChar : ascii)
    (pieces : Z) : outcome (list string) :=
  let result : list string := [] in
  let strTemp := buf in
  if pieces =? 1 then Returns (result ++ [strTemp])
  else
    let remainKnives := pieces - 1 in
    CutMessage_for (S len) buf strTemp len delimiterChar 0 0 remainKnives result.

(** [CutMessage(buf, delimiterChar, pieces)]: [len] is [strlen(buf)]. *)
Definition CutMessage (buf : string) (delimiterChar : ascii) (pieces : Z)
    : outcome (list string) :=
  CutMessage_len buf (String.length buf) delimiterChar pieces.

(** Modelled from the spec: the default argument of [pieces] is declared in
    WheatCommand.h, which is not among the sources. The comment in the loop
    of [CutMessage] gives it: "pieces = 0" by default, which makes
    [remainKnives] start at [-1] and cuts at every delimiter. *)
Definition default_pieces : Z := 0.

Definition GetCommandTypeFromString (sz : string) : WheatCommandType.t :=
  if String.eqb sz "name" then WheatCommandType.name
  else if String.eqb sz "type" then WheatCommandType.type
  else if String.eqb sz "sleep" then WheatCommandType.sleep
  else if String.eqb sz "getup" then WheatCommandType.getup
  else if String.eqb sz "chat" then WheatCommandType.chat
  else if String.eqb sz "move" then WheatCommandType.move
  else if String.eqb sz "pos" then WheatCommandType.pos
  else WheatCommandType.unknown.

(** [WheatCommand resultCommand;] before any assignment. *)
Definition resultCommand0 (t : WheatCommandType.t) : WheatCommand :=
  {| type := t; nParam0 := None; nParam1 := None; strParam := "" |}.

Definition Parse (buf : string) : outcome WheatCommand :=
  vecCuttedBuf ← CutMessage buf "$" 2;
  if (length vecCuttedBuf <=? 1)%nat then Returns (resultCommand0 WheatCommandType.unknown)
  else
    f0 ← vec_at vecCuttedBuf 0;
    let t := GetCommandTypeFromString f0 in
    match t with
    | WheatCommandType.name | WheatCommandType.chat =>
        f1 ← vec_at vecCuttedBuf 1;
        Returns {| type := t; nParam0 := None; nParam1 := None; strParam := f1 |}
    | WheatCommandType.type | WheatCommandType.sleep =>
        f1 ← vec_at vecCuttedBuf 1;
        n0 ← atoi f1;
        Returns {| type := t; nParam0 := Some n0; nParam1 := None; strParam := "" |}
    | WheatCommandType.getup => Returns (resultCommand0 t)
    | WheatCommandType.move | WheatCommandType.pos =>
        f1 ← vec_at vecCuttedBuf 1;
        vecPosCutTemp ← CutMessage f1 "," default_pieces;
        p0 ← vec_at vecPosCutTemp 0;
        n0 ← atoi p0;
        p1 ← vec_at vecPosCutTemp 1;
        n1 ← atoi p1;
        Returns {| type := t; nParam0 := Some n0; nParam1 := Some n1; strParam := "" |}
    | WheatCommandType.unknown => Returns (resultCommand0 t)
    end.

(** [MakeMessage] returns [nullptr] whatever the command: [None] is the
    null pointer, [Some s] would be a pointer to the characters [s]. *)
Definition MakeMessage (command : WheatCommand) : option string := None.

End WheatCommandProgrammer.

(** ** sleeper.cpp *)

Module wheat.

Definition SleeperId : Type := Z.

Record Pos : Type := mkPos { x : Z; y : Z }.

(** Modelled from the spec: the variant [WheatCommand] that [ParseCommand]
    returns and [std::visit] dispatches on is declared in wheat_command.h,
    which is not among the sources. Its alternatives are the ones the data
    model of the specification lists; the payload names are the members
    that sleeper.cpp reads. *)
Inductive WheatCommand : Type :=
| CmdSleeper (id : SleeperId)
| CmdName (name : string)
| CmdType (sex : Z)
| CmdSleep (bed_id : Z)
| CmdGetup
| CmdChat (msg : string)
| CmdPos (pos : Pos)
| CmdMove (pos : Pos)
| CmdVoteKickStart (kick_id : SleeperId)
| CmdVoteAgree
| CmdVoteRefuse
| CmdUnknown.

(** Functions of wheat_command.h that sleeper.cpp calls: taken as
    parameters. [ParseCommand] is [None] when it throws. *)
Class WheatCodec : Type := {
  ParseCommand : string -> option WheatCommand;
  PackCommandWithId : SleeperId -> WheatCommand -> string
}.

(** The room (room.h) is a collaborator: a state [R] and the methods that
    sleeper.cpp calls on it. *)
Class Room (R : Type) : Type := {
  Join : SleeperId -> R -> bool * R;
  Leave : SleeperId -> R -> R;
  Sleep : SleeperId -> Z -> R -> bool * R;
  GetUp : SleeperId -> R -> R;
  Deliver : SleeperId -> string -> R -> R;
  VoteKickStart : SleeperId -> R -> R;
  Agree : SleeperId -> R -> R;
  Refuse : SleeperId -> R -> R
}.

(** The calls a sleeper makes on its collaborators, its socket and its
    timer, in the order it makes them. *)
Inductive Call : Type :=
| Room_Join (id : SleeperId)
| Room_Leave (id : SleeperId)
| Room_Sleep (id : SleeperId) (bed_id : Z)
| Room_GetUp (id : SleeperId)
| Room_Deliver (id : SleeperId) (msg : string)
| Room_VoteKickStart (kick_id : SleeperId)
| Room_Agree (id : SleeperId)
| Room_Refuse (id : SleeperId)
| sock_close
| timer_cancel
| timer_cancel_one
| IPTrafficRecorder_OnConnection (ip : string)
| ViolationDetector_AddObserver (category value : string)
| IPTrafficRecorder_OnData (ip : string) (bits : Z)
| IPTrafficRecorder_OnConnectionClose (ip : string).

(** The data members of [Sleeper] that the modelled methods touch. *)
Record Sleeper : Type := mkSleeper {
  m_id : SleeperId;
  m_ip : string;
  m_name : string;
  m_sex : Z;
  m_pos : Pos;
  m_bed_id : Z;
  m_is_stoped : bool;
  m_write_msgs : list string
}.

(** What a method of [Sleeper] reads and writes: [*this], the room and the
    calls made so far. *)
Record World (R : Type) : Type := mkWorld {
  this : Sleeper;
  m_room : R;
  calls : list Call
}.
Arguments mkWorld {R} _ _ _.
Arguments this {R} _.
Arguments m_room {R} _.
Arguments calls {R} _.

Definition Act (R A : Type) : Type := World R -> A * World R.

#[global] Instance Act_ret {R} : MRet (Act R) := fun A a w => (a, w).
#[global] Instance Act_bind {R} : MBind (Act R) := fun A B k m w =>
  let '(a, w') := m w in k a w'.

Section Methods.
Context {R : Type} `{!Room R} `{!WheatCodec}.

Definition get_this : Act R Sleeper := fun w => (this w, w).

Definition set_this (f : Sleeper -> Sleeper) : Act R unit := fun w =>
  (tt, mkWorld (f (this w)) (m_room w) (calls w)).

(** A call that changes the state of the room and returns nothing. *)
Definition room_do (c : Call) (f : R -> R) : Act R unit := fun w =>
  (tt, mkWorld (this w) (f (m_room w)) (calls w ++ [c])).

(** A call on the room that returns a [bool]. *)
Definition room_ask (c : Call) (f : R -> bool * R) : Act R bool := fun w =>
  let '(b, r) := f (m_room w) in
  (b, mkWorld (this w) r (calls w ++ [c])).

(** A call on the socket, the timer or the traffic recorder. *)
Definition do_call (c : Call) : Act R unit := fun w =>
  (tt, mkWorld (this w) (m_room w) (calls w ++ [c])).

Definition set_name (v : string) (s : Sleeper) : Sleeper :=
  mkSleeper (m_id s) (m_ip s) v (m_sex s) (m_pos s) (m_bed_id s)
    (m_is_stoped s) (m_write_msgs s).
Definition set_sex (v : Z) (s : Sleeper) : Sleeper :=
  mkSleeper (m_id s) (m_ip s) (m_name s) v (m_pos s) (m_bed_id s)
    (m_is_stoped s) (m_write_msgs s).
Definition set_pos (v : Pos) (s : Sleeper) : Sleeper :=
  mkSleeper (m_id s) (m_ip s) (m_name s) (m_sex s) v (m_bed_id s)
    (m_is_stoped s) (m_write_msgs s).
Definition set_bed_id (v : Z) (s : Sleeper) : Sleeper :=
  mkSleeper (m_id s) (m_ip s) (m_name s) (m_sex s) (m_pos s) v
    (m_is_stoped s) (m_write_msgs s).
Definition set_is_stoped (v : bool) (s : Sleeper) : Sleeper :=
  mkSleeper (m_id s) (m_ip s) (m_name s) (m_sex s) (m_pos s) (m_bed_id s)
    v (m_write_msgs s).
Definition push_write_msg (msg : string) (s : Sleeper) : Sleeper :=
  mkSleeper (m_id s) (m_ip s) (m_name s) (m_sex s) (m_pos s) (m_bed_id s)
    (m_is_stoped s) (m_write_msgs s ++ [msg]).

(** [Sleeper::Deliver] *)
Definition Sleeper_Deliver (msg : string) : Act R unit :=
  set_this (push_write_msg msg);;
  do_call timer_cancel_one.

(** [Sleeper::MakeSelfInfo] *)
Definition MakeSelfInfo (s : Sleeper) : string :=
  let info := "" in
  let make_cmd_str := fun cmd => PackCommandWithId (m_id s) cmd in
  let info := info +:+ make_cmd_str (CmdSleeper (m_id s)) in
  let info := info +:+ make_cmd_str (CmdName (m_name s)) in
  let info := info +:+ make_cmd_str (CmdType (m_sex s)) in
  if negb (m_bed_id s =? -1) then
    info +:+ make_cmd_str (CmdSleep (m_bed_id s))
  else
    info +:+ make_cmd_str (CmdPos (m_pos s)).

(** The [std::visit] of [Sleeper::Reader]: one lambda per alternative,
    the generic lambda for the rest. The result is [forward]. *)
Definition visit (cmd : WheatCommand) : Act R bool :=
  s ← get_this;
  let forward := true in
  match cmd with
  | CmdSleep bed_id =>
      ok ← room_ask (Room_Sleep (m_id s) bed_id) (Sleep (m_id s) bed_id);
      if ok : bool then set_this (set_bed_id bed_id);; mret forward
      else mret false
  | CmdGetup => room_do (Room_GetUp (m_id s)) (GetUp (m_id s));; mret forward
  | CmdName name => set_this (set_name name);; mret forward
  | CmdType sex => set_this (set_sex sex);; mret forward
  | CmdChat msg => mret forward
  | CmdPos pos => set_this (set_pos pos);; mret forward
  | CmdMove pos => set_this (set_pos pos);; mret forward
  | CmdVoteKickStart kick_id =>
      room_do (Room_VoteKickStart kick_id) (VoteKickStart kick_id);; mret forward
  | CmdVoteAgree => room_do (Room_Agree (m_id s)) (Agree (m_id s));; mret false
  | CmdVoteRefuse => room_do (Room_Refuse (m_id s)) (Refuse (m_id s));; mret false
  | _ => mret forward
  end.

(** One turn of the [while (true)] of [Sleeper::Reader], from the frame
    [msg] that [async_read_until] delivered: the terminating NUL is part
    of [msg]. An exception of [ParseCommand] is caught and logged, and
    the loop goes on. *)
Definition Reader_frame (msg : string) : Act R unit :=
  s ← get_this;
  do_call (IPTrafficRecorder_OnData (m_ip s) (Z.of_nat (String.length msg) * 8));;
  match ParseCommand msg with
  | Some cmd =>
      forward ← visit cmd;
      if forward : bool then
        room_do (Room_Deliver (m_id s) msg) (Deliver (m_id s) msg)
      else mret tt
  | None => mret tt
  end.

(** [Sleeper::Stop] *)
Definition Stop : Act R unit :=
  s ← get_this;
  if m_is_stoped s then mret tt
  else
    set_this (set_is_stoped true);;
    room_do (Room_Leave (m_id s)) (Leave (m_id s));;
    do_call sock_close;;
    do_call timer_cancel;;
    do_call (IPTrafficRecorder_OnConnectionClose (m_ip s)).

(** [Sleeper::Start], up to the two coroutines it spawns: the result tells
    whether it spawns them. The observer it registers calls [Stop] when the
    detector reports a violation. *)
Definition Start : Act R bool :=
  s ← get_this;
  do_call (IPTrafficRecorder_OnConnection (m_ip s));;
  do_call (ViolationDetector_AddObserver "ip" (m_ip s));;
  joined ← room_ask (Room_Join (m_id s)) (Join (m_id s));
  if negb joined then Stop;; mret false
  else mret true.

(** [Sleeper::Reader] on the frames that arrive before the read fails:
    the failed read throws out of the loop and the handler calls [Stop]. *)
Fixpoint Reader (frames : list string) : Act R unit :=
  match frames with
  | msg :: frames' => Reader_frame msg;; Reader frames'
  | [] => Stop
  end.

(** The calls made by [m] from [w], without those made before. *)
Definition calls_of {A} (m : Act R A) (w : World R) : list Call :=
  drop (length (calls w)) (calls (m w).2).
End Methods.

(** *** The writer, the operations on a sleeper and the ids *)

Section Writer.
Context {R : Type} `{!Room R} `{!WheatCodec}.

Definition pop_write_msg (s : Sleeper) : Sleeper :=
  mkSleeper (m_id s) (m_ip s) (m_name s) (m_sex s) (m_pos s) (m_bed_id s)
    (m_is_stoped s) (tail (m_write_msgs s)).

Definition is_sock_close (c : Call) : bool :=
  match c with sock_close => true | _ => false end.

(** [m_sock.is_open()]: the socket of an accepted connection is open until
    [close] is called on it. *)
Definition sock_is_open (w : World R) : bool :=
  negb (existsb is_sock_close (calls w)).

(** How the coroutine of [Sleeper::Writer] goes on after a turn of its loop:
    with the next turn, suspended on the timer, or returned. *)
Inductive WriterState : Type :=
| Writer_running
| Writer_waiting
| Writer_returned.

(** One turn of the [while (m_sock.is_open())] of [Sleeper::Writer].
    [write_ok] tells whether [async_write] completes or throws; the result
    is the frame written in full, if any, and how the coroutine goes on. An
    exception is caught, [Stop] is called and the coroutine returns. *)
Definition Writer_turn (write_ok : bool) : Act R (option string * WriterState) :=
  fun w =>
    if sock_is_open w then
      match m_write_msgs (this w) with
      | [] => ((None, Writer_waiting), w)
      | front :: _ =>
          if write_ok then
            ((Some front, Writer_running),
             mkWorld (pop_write_msg (this w)) (m_room w) (calls w))
          else (Stop;; mret (None, Writer_returned)) w
      end
    else ((None, Writer_returned), w).

(** What can happen to a sleeper, one at a time: a frame is handed to
    [Deliver], the writer takes a turn, the reader has read a frame, or
    [Stop] is called (by the reader on a failed read, by the violation
    observer). Any order of these is allowed, which covers the orders that
    the two coroutines and the callers of [Deliver] and [Stop] can produce. *)
Inductive Op : Type :=
| Op_Deliver (msg : string)
| Op_Writer (write_ok : bool)
| Op_Frame (msg : string)
| Op_Stop.

(** A sleeper with the frames its writer has written to the socket, and
    whether the writer has returned. *)
Record Actor : Type := mkActor {
  world : World R;
  written : list string;
  writer_returned : bool
}.

Definition step (a : Actor) (op : Op) : Actor :=
  match op with
  | Op_Deliver msg =>
      mkActor (Sleeper_Deliver msg (world a)).2 (written a) (writer_returned a)
  | Op_Writer write_ok =>
      if writer_returned a then a
      else
        let '((out, st), w') := Writer_turn write_ok (world a) in
        mkActor w'
          (written a ++ match out with Some msg => [msg] | None => [] end)
          match st with Writer_returned => true | _ => false end
  | Op_Frame msg =>
      mkActor (Reader_frame msg (world a)).2 (written a) (writer_returned a)
  | Op_Stop =>
      mkActor (Stop (world a)).2 (written a) (writer_returned a)
  end.

Definition run (ops : list Op) (a : Actor) : Actor := foldl step a ops.

(** The frames handed to [Deliver], in order. *)
Definition delivered (ops : list Op) : list string :=
  omap (fun op => match op with Op_Deliver msg => Some msg | _ => None end) ops.
End Writer.

(** The frames passed to [Room::Deliver], in order. *)
Definition relayed (cs : list Call) : list string :=
  omap (fun c => match c with Room_Deliver _ msg => Some msg | _ => None end) cs.

(** The bits of the traffic records, in order. *)
Definition traffic (cs : list Call) : list Z :=
  omap (fun c => match c with IPTrafficRecorder_OnData _ b => Some b | _ => None end) cs.

(** A call that a frame can cause behind its traffic record: a call on the
    room, with the sleeper's own id when it is [Room::Deliver]. *)
Definition frame_call (id : SleeperId) (c : Call) : bool :=
  match c with
  | Room_Deliver i _ => bool_decide (i = id)
  | Room_Sleep _ _ | Room_GetUp _ | Room_VoteKickStart _
  | Room_Agree _ | Room_Refuse _ => true
  | _ => false
  end.

(** The calls that [Stop] makes. *)
Definition is_teardown (c : Call) : bool :=
  match c with
  | Room_Leave _ | sock_close | timer_cancel
  | IPTrafficRecorder_OnConnectionClose _ => true
  | _ => false
  end.

Definition teardown_of (s : Sleeper) : list Call :=
  [Room_Leave (m_id s); sock_close; timer_cancel;
   IPTrafficRecorder_OnConnectionClose (m_ip s)].

(** The calls of [Stop] have been made, once and in order, if and only if
    the sleeper is stopped. *)
Definition torn_down_once {R} (w : World R) : Prop :=
  List.filter is_teardown (calls w)
  = if m_is_stoped (this w) then teardown_of (this w) else [].

(** Modelled from the spec: [SleeperId] is declared in a header that is not
    among the sources; the specification gives it 64 bits, and sleeper.cpp
    prints it with [%lld]. The increment of a [std::atomic] of a signed type
    wraps around. *)
Definition wrap_SleeperId (z : Z) : Z := (z + 2 ^ 63) mod 2 ^ 64 - 2 ^ 63.

(** The initial value of the static [global_sleeper_id]. *)
Definition global_sleeper_id0 : Z := 10000.

(** [MakeSleeperId]: [global_sleeper_id++] on the counter, which is passed
    in and out. *)
Definition MakeSleeperId (global_sleeper_id : Z) : SleeperId * Z :=
  (global_sleeper_id, wrap_SleeperId (global_sleeper_id + 1)).

(** [n] calls of [MakeSleeperId] in a row. *)
Fixpoint MakeSleeperIds (n : nat) (global_sleeper_id : Z) : list SleeperId * Z :=
  match n with
  | O => ([], global_sleeper_id)
  | S n' =>
      let '(id, g) := MakeSleeperId global_sleeper_id in
      let '(ids, g') := MakeSleeperIds n' g in
      (id :: ids, g')
  end.

(** *** A room and a codec to run the methods on *)

(** A room that only keeps who sleeps in which bed: a bed is granted when
    it is free. *)
#[global] Instance bed_room : Room (gmap Z SleeperId) := {|
  Join := fun id beds => (true, beds);
  Leave := fun id beds => filter (fun kv => kv.2 ≠ id) beds;
  Sleep := fun id bed_id beds =>
    match beds !! bed_id with
    | Some _ => (false, beds)
    | None => (true, <[bed_id := id]> beds)
    end;
  GetUp := fun id beds => filter (fun kv => kv.2 ≠ id) beds;
  Deliver := fun id msg beds => beds;
  VoteKickStart := fun kick_id beds => beds;
  Agree := fun id beds => beds;
  Refuse := fun id beds => beds
|}.

(** The codec of WheatCommand.cpp as a [WheatCodec]: [Parse] for the seven
    tokens it knows, two more tokens for the votes, and a packing that
    writes the owner's id, the token and the payload. *)
Definition legacy_ParseCommand (msg : string) : option WheatCommand :=
  if String.eqb msg "agree$" then Some CmdVoteAgree
  else if String.eqb msg "refuse$" then Some CmdVoteRefuse
  else
    match WheatCommandProgrammer.Parse msg with
    | Returns c =>
        Some match type c, nParam0 c, nParam1 c with
             | WheatCommandType.name, _, _ => CmdName (strParam c)
             | WheatCommandType.type, Some n, _ => CmdType n
             | WheatCommandType.sleep, Some n, _ => CmdSleep n
             | WheatCommandType.getup, _, _ => CmdGetup
             | WheatCommandType.chat, _, _ => CmdChat (strParam c)
             | WheatCommandType.move, Some a, Some b => CmdMove (mkPos a b)
             | WheatCommandType.pos, Some a, Some b => CmdPos (mkPos a b)
             | _, _, _ => CmdUnknown
             end
    | _ => None
    end.

Definition legacy_PackCommandWithId (id : SleeperId) (cmd : WheatCommand) : string :=
  pretty id +:+ "$" +:+
  match cmd with
  | CmdSleeper id' => "sleeper$" +:+ pretty id'
  | CmdName name => "name$" +:+ name
  | CmdType sex => "type$" +:+ pretty sex
  | CmdSleep bed_id => "sleep$" +:+ pretty bed_id
  | CmdGetup => "getup$"
  | CmdChat msg => "chat$" +:+ msg
  | CmdPos pos => "pos$" +:+ pretty (x pos) +:+ "," +:+ pretty (y pos)
  | CmdMove pos => "move$" +:+ pretty (x pos) +:+ "," +:+ pretty (y pos)
  | CmdVoteKickStart kick_id => "kick$" +:+ pretty kick_id
  | CmdVoteAgree => "agree$"
  | CmdVoteRefuse => "refuse$"
  | CmdUnknown => ""
  end +:+ ";".

#[global] Instance legacy_codec : WheatCodec := {|
  ParseCommand := legacy_ParseCommand;
  PackCommandWithId := legacy_PackCommandWithId
|}.

(** A sleeper that has just joined, awake, and a room where bed 5 is
    taken by sleeper 10000. *)
Definition newcomer : Sleeper :=
  mkSleeper 10001 "192.0.2.7" "" 0 (mkPos 0 0) (-1) false [].

Definition busy_room : World (gmap Z SleeperId) :=
  mkWorld newcomer {[ 5 := 10000 ]} [].

End wheat.

(** ** The frame codec seen from the text *)

(** The fields that scanning [rest] produces when [cur] is the text of the
    current field read so far and [remainKnives] cuts remain: the loop of
    [CutMessage] seen from the text rather than from the indices. *)
Fixpoint cut_fields (d : ascii) (remainKnives : Z) (cur rest : string) : list string :=
  match rest with
  | EmptyString => [cur]
  | String c rest' =>
      if Ascii.eqb c d then
        if remainKnives =? 0 then [cur +:+ rest]
        else cur :: cut_fields d (remainKnives - 1) "" rest'
      else cut_fields d remainKnives (cur +:+ String c "") rest'
  end.

(** ** Vocabulary of the specification *)

(** Number of occurrences of the delimiter. *)
Fixpoint count_delim (d : ascii) (s : string) : nat :=
  match s with
  | EmptyString => O
  | String c s' => (if Ascii.eqb c d then 1 else 0) + count_delim d s'
  end.

(** Index of the occurrence of the delimiter that follows [skip] earlier
    occurrences. *)
Fixpoint delim_index (d : ascii) (skip : nat) (s : string) : option nat :=
  match s with
  | EmptyString => None
  | String c s' =>
      if Ascii.eqb c d then
        match skip with
        | O => Some O
        | S k => S <$> delim_index d k s'
        end
      else S <$> delim_index d skip s'
  end.

(** Index of the [n]-th occurrence of the delimiter, counted from 1. *)
Definition nth_delim (d : ascii) (n : nat) (s : string) : option nat :=
  match n with
  | O => None
  | S k => delim_index d k s
  end.

(** The suffix of [s] that starts at index [i]. *)
Definition suffix_from (i : nat) (s : string) : string :=
  String.substring i (String.length s - i) s.

(** [t] is what is left of [s] after its last delimiter: all of [s] when it
    has none. *)
Definition unsplit_rest (d : ascii) (s t : string) : Prop :=
  count_delim d t = O /\ (s = t \/ exists p, s = p +:+ String d t).

(** The text in front of the first delimiter: all of [s] when it has none. *)
Fixpoint before_delim (d : ascii) (s : string) : string :=
  match s with
  | EmptyString => ""
  | String c s' => if Ascii.eqb c d then "" else String c (before_delim d s')
  end.

(** The tokens of the command table. *)
Definition command_tokens : list string :=
  ["name"; "type"; "sleep"; "getup"; "chat"; "move"; "pos"].

(** The fields joined again, the delimiter between them. *)
Definition join (d : ascii) (fields : list string) : string :=
  String.concat (String d "") fields.

Import WheatCommandProgrammer.

(** The text behind the first delimiter: empty when [s] has none. *)
Fixpoint after_delim (d : ascii) (s : string) : string :=
  match s with
  | EmptyString => ""
  | String c s' => if Ascii.eqb c d then s' else after_delim d s'
  end.

(** The command type that the token of a frame selects: [unknown] for a
    frame without [$]. *)
Definition frame_type (buf : string) : WheatCommandType.t :=
  if (count_delim "$" buf =? 0)%nat then WheatCommandType.unknown
  else GetCommandTypeFromString (before_delim "$" buf).

(** The token of a command type: the table of [GetCommandTypeFromString]
    read from right to left. *)
Definition token_of (t : WheatCommandType.t) : option string :=
  match t with
  | WheatCommandType.name => Some "name"
  | WheatCommandType.type => Some "type"
  | WheatCommandType.sleep => Some "sleep"
  | WheatCommandType.getup => Some "getup"
  | WheatCommandType.chat => Some "chat"
  | WheatCommandType.move => Some "move"
  | WheatCommandType.pos => Some "pos"
  | WheatCommandType.unknown => None
  end.

(** The fields of the four-argument [CutMessage] when the scan stops before
    the end of the text: [rest] is what is left to scan and [tail] the text
    behind the scanned length. A field cut with [substr(l)] runs to the end
    of the text, [tail] included. *)
Fixpoint cut_fields_tail (d : ascii) (remainKnives : Z) (cur rest tail : string)
    : list string :=
  match rest with
  | EmptyString => if remainKnives =? 0 then [cur +:+ tail] else [cur]
  | String c rest' =>
      if Ascii.eqb c d then
        if remainKnives =? 0 then [cur +:+ rest +:+ tail]
        else cur :: cut_fields_tail d (remainKnives - 1) "" rest' tail
      else cut_fields_tail d remainKnives (cur +:+ String c "") rest' tail
  end.

(** * Properties *)

(** ** Strings *)

Section StringFacts.
Implicit Types a b s : string.

Lemma string_app_cons c a b : String c a +:+ b = String c (a +:+ b).
Proof. reflexivity. Qed.

Lemma string_app_nil_r s : s +:+ "" = s.
Proof.
  induction s as [|c s IH]; [done|]. by rewrite string_app_cons, IH.
Qed.

Lemma string_app_assoc a b s : (a +:+ b) +:+ s = a +:+ (b +:+ s).
Proof.
  induction a as [|c a IH]; [done|]. by rewrite !string_app_cons, IH.
Qed.

Lemma string_length_app a b :
  String.length (a +:+ b) = (String.length a + String.length b)%nat.
Proof.
  induction a as [|c a IH]; [done|].
  rewrite string_app_cons. cbn [String.length]. by rewrite IH.
Qed.

Lemma string_get_app a b :
  String.get (String.length a) (a +:+ b) = String.get 0 b.
Proof. induction a as [|c a IH]; [done | exact IH]. Qed.

Lemma substring_0_app a b :
  String.substring 0 (String.length a) (a +:+ b) = a.
Proof.
  induction a as [|c a IH].
  - by destruct b.
  - rewrite string_app_cons. cbn [String.length String.substring]. by rewrite IH.
Qed.

Lemma substring_0_all s : String.substring 0 (String.length s) s = s.
Proof.
  pose proof (substring_0_app s "") as H.
  by rewrite string_app_nil_r in H.
Qed.

Lemma substring_skip_app a b n :
  String.substring (String.length a) n (a +:+ b) = String.substring 0 n b.
Proof. induction a as [|c a IH]; [done | exact IH]. Qed.

Lemma suffix_from_0 s : suffix_from 0 s = s.
Proof. unfold suffix_from. rewrite Nat.sub_0_r. apply substring_0_all. Qed.

Lemma suffix_from_S i c s : suffix_from (S i) (String c s) = suffix_from i s.
Proof. reflexivity. Qed.
End StringFacts.

(** ** The loop of [CutMessage] computes [cut_fields] *)

Lemma substr_field buf pre cur rest :
  buf = pre +:+ cur +:+ rest ->
  substr buf (String.length pre) (String.length cur) = Returns cur.
Proof.
  intros ->. unfold substr. rewrite string_length_app.
  destruct (Nat.ltb_spec (String.length pre + String.length (cur +:+ rest))
              (String.length pre)) as [Hlt|_]; [lia|].
  by rewrite substring_skip_app, substring_0_app.
Qed.

Lemma substr_from_field buf pre tl :
  buf = pre +:+ tl ->
  substr_from buf (String.length pre) = Returns tl.
Proof.
  intros ->. unfold substr_from, substr. rewrite string_length_app.
  destruct (Nat.ltb_spec (String.length pre + String.length tl)
              (String.length pre)) as [Hlt|_]; [lia|].
  rewrite substring_skip_app.
  replace (String.length pre + String.length tl - String.length pre)%nat
    with (String.length tl) by lia.
  by rewrite substring_0_all.
Qed.

Lemma c_index_field pre c rest :
  c_index (pre +:+ String c rest) (String.length pre) = c.
Proof. unfold c_index. by rewrite string_get_app. Qed.

(** One iteration of the loop. *)
Lemma CutMessage_for_S k buf strTemp len d l r remainKnives result :
  CutMessage_for (S k) buf strTemp len d l r remainKnives result
  = if Ascii.eqb (c_index buf r) d || (r =? len)%nat then
      if remainKnives =? 0 then
        piece ← substr_from strTemp l; Returns (result ++ [piece])
      else
        piece ← substr strTemp l (r - l);
        CutMessage_for k buf strTemp len d (r + 1)%nat (r + 1)%nat
          (remainKnives - 1) (result ++ [piece])
    else CutMessage_for k buf strTemp len d l (r + 1)%nat remainKnives result.
Proof. reflexivity. Qed.

(** Invariant of the loop: at index [r] the text is [pre +:+ cur +:+ rest]
    with [l = |pre|] and [r = |pre| + |cur|]; from there the loop appends
    [cut_fields d remainKnives cur rest] to [result] and returns. *)
Lemma CutMessage_for_cut_fields d rest : forall buf pre cur remainKnives result,
  buf = pre +:+ cur +:+ rest ->
  CutMessage_for (S (String.length rest)) buf buf (String.length buf) d
    (String.length pre) (String.length pre + String.length cur) remainKnives result
  = Returns (result ++ cut_fields d remainKnives cur rest).
Proof.
  induction rest as [|c rest IH]; intros buf pre cur rk result Hbuf.
  - (* r = len *)
    assert (Hr : (String.length pre + String.length cur)%nat = String.length buf).
    { rewrite Hbuf, !string_length_app. simpl. lia. }
    cbn [String.length]. rewrite CutMessage_for_S.
    replace (String.length pre + String.length cur =? String.length buf)%nat
      with true by (symmetry; apply Nat.eqb_eq; lia).
    rewrite orb_true_r.
    destruct (rk =? 0).
    + rewrite (substr_from_field buf pre cur) by (by rewrite string_app_nil_r in Hbuf).
      reflexivity.
    + replace (String.length pre + String.length cur - String.length pre)%nat
        with (String.length cur) by lia.
      rewrite (substr_field buf pre cur "" Hbuf). reflexivity.
  - (* r < len and buf[r] = c *)
    assert (Hlen : String.length buf
                   = (String.length pre + String.length cur + S (String.length rest))%nat).
    { rewrite Hbuf, !string_length_app. simpl. lia. }
    assert (Hc : c_index buf (String.length pre + String.length cur) = c).
    { rewrite Hbuf, <- string_app_assoc, <- string_length_app.
      apply c_index_field. }
    cbn [String.length]. rewrite CutMessage_for_S, Hc.
    replace (String.length pre + String.length cur =? String.length buf)%nat
      with false by (symmetry; apply Nat.eqb_neq; lia).
    rewrite orb_false_r. cbn [cut_fields].
    destruct (Ascii.eqb c d) eqn:Hcd.
    + destruct (rk =? 0).
      * rewrite (substr_from_field buf pre (cur +:+ String c rest) Hbuf). reflexivity.
      * replace (String.length pre + String.length cur - String.length pre)%nat
          with (String.length cur) by lia.
        rewrite (substr_field buf pre cur (String c rest) Hbuf).
        change (Returns cur ≫= ?k) with (k cur). cbv beta.
        specialize (IH buf ((pre +:+ cur) +:+ String c "") "" (rk - 1) (result ++ [cur])).
        rewrite !string_length_app in IH. cbn [String.length] in IH.
        rewrite Nat.add_0_r in IH. rewrite IH.
        { by rewrite <- app_assoc. }
        rewrite Hbuf, !string_app_assoc. reflexivity.
    + specialize (IH buf pre (cur +:+ String c "") rk result).
      rewrite !string_length_app in IH. cbn [String.length] in IH.
      rewrite Nat.add_assoc in IH. apply IH.
      rewrite Hbuf, !string_app_assoc. reflexivity.
Qed.

Lemma CutMessage_cut_fields buf d pieces :
  CutMessage buf d pieces
  = Returns (if pieces =? 1 then [buf] else cut_fields d (pieces - 1) "" buf).
Proof.
  unfold CutMessage, CutMessage_len. destruct (pieces =? 1); [reflexivity|].
  exact (CutMessage_for_cut_fields d buf buf "" "" (pieces - 1) [] eq_refl).
Qed.

(** ** What [cut_fields] produces *)

Lemma cut_fields_nonempty d rk cur rest : cut_fields d rk cur rest <> [].
Proof.
  revert rk cur. induction rest as [|c rest IH]; intros rk cur; cbn [cut_fields].
  - discriminate.
  - destruct (Ascii.eqb c d); [destruct (rk =? 0); discriminate | apply IH].
Qed.

Lemma join_cons d x fields :
  fields <> [] -> join d (x :: fields) = x +:+ String d (join d fields).
Proof. destruct fields; [congruence | reflexivity]. Qed.

Lemma last_cons_nonempty {A} (x : A) (l : list A) : l <> [] -> last (x :: l) = last l.
Proof. destruct l; [congruence | reflexivity]. Qed.

Lemma cut_fields_join d rest : forall rk cur,
  join d (cut_fields d rk cur rest) = cur +:+ rest.
Proof.
  induction rest as [|c rest IH]; intros rk cur; cbn [cut_fields].
  - unfold join. cbn. by rewrite string_app_nil_r.
  - destruct (Ascii.eqb c d) eqn:Hcd.
    + apply Ascii.eqb_eq in Hcd as ->.
      destruct (rk =? 0); [reflexivity|].
      rewrite join_cons by apply cut_fields_nonempty.
      by rewrite IH.
    + by rewrite IH, string_app_assoc.
Qed.

Lemma cut_fields_zero d rest : forall cur,
  cut_fields d 0 cur rest = [cur +:+ rest].
Proof.
  induction rest as [|c rest IH]; intros cur; cbn [cut_fields].
  - by rewrite string_app_nil_r.
  - destruct (Ascii.eqb c d); [reflexivity|].
    by rewrite IH, string_app_assoc.
Qed.

Lemma of_nat_S_eqb_0 k : (Z.of_nat (S k) =? 0) = false.
Proof. apply Z.eqb_neq. lia. Qed.

Lemma of_nat_S_pred k : Z.of_nat (S k) - 1 = Z.of_nat k.
Proof. lia. Qed.

Lemma cut_fields_length d rest : forall k cur,
  length (cut_fields d (Z.of_nat k) cur rest) = S (Nat.min k (count_delim d rest)).
Proof.
  induction rest as [|c rest IH]; intros k cur; cbn [cut_fields count_delim].
  - by rewrite Nat.min_0_r.
  - destruct (Ascii.eqb c d).
    + destruct k as [|k]; [reflexivity|].
      rewrite of_nat_S_eqb_0, of_nat_S_pred. cbn [length]. by rewrite IH.
    + by rewrite IH.
Qed.

Lemma delim_index_is_Some d s : forall k,
  (k < count_delim d s)%nat -> exists i, delim_index d k s = Some i.
Proof.
  induction s as [|c s IH]; intros k Hk; cbn [count_delim delim_index] in *.
  - lia.
  - destruct (Ascii.eqb c d).
    + destruct k as [|k]; [by eexists|].
      destruct (IH k) as [i ->]; [lia | by eexists].
    + destruct (IH k) as [i ->]; [lia | by eexists].
Qed.

(** With [S k] cuts and an occurrence of the delimiter after [k] others, the
    last field is everything behind that occurrence. *)
Lemma cut_fields_last_absorb d rest : forall k cur i,
  delim_index d k rest = Some i ->
  last (cut_fields d (Z.of_nat (S k)) cur rest) = Some (suffix_from (S i) rest).
Proof.
  induction rest as [|c rest IH]; intros k cur i Hi; cbn [cut_fields delim_index] in *.
  - discriminate.
  - destruct (Ascii.eqb c d).
    + rewrite of_nat_S_eqb_0, of_nat_S_pred.
      rewrite last_cons_nonempty by apply cut_fields_nonempty.
      destruct k as [|k].
      * injection Hi as <-. rewrite cut_fields_zero.
        by rewrite suffix_from_S, suffix_from_0.
      * destruct (delim_index d k rest) as [j|] eqn:Hj; [|discriminate].
        injection Hi as <-. rewrite suffix_from_S. by apply IH.
    + destruct (delim_index d k rest) as [j|] eqn:Hj; [|discriminate].
      injection Hi as <-. rewrite suffix_from_S. by apply IH.
Qed.

Lemma count_delim_app d a b :
  count_delim d (a +:+ b) = (count_delim d a + count_delim d b)%nat.
Proof.
  induction a as [|c a IH]; [done|].
  rewrite string_app_cons. cbn [count_delim]. rewrite IH. lia.
Qed.

(** With at least as many cuts as delimiters, the last field is what follows
    the last delimiter. *)
Lemma cut_fields_last_short d rest : forall k cur,
  count_delim d cur = O ->
  (count_delim d rest <= k)%nat ->
  exists t, last (cut_fields d (Z.of_nat k) cur rest) = Some t
            /\ unsplit_rest d (cur +:+ rest) t.
Proof.
  induction rest as [|c rest IH]; intros k cur Hcur Hk; cbn [cut_fields count_delim] in *.
  - exists cur. rewrite string_app_nil_r. by repeat split; [|left].
  - destruct (Ascii.eqb c d) eqn:Hcd.
    + apply Ascii.eqb_eq in Hcd as ->.
      destruct k as [|k]; [lia|].
      rewrite of_nat_S_eqb_0, of_nat_S_pred.
      rewrite last_cons_nonempty by apply cut_fields_nonempty.
      destruct (IH k "") as (t & Hlast & Hcount & Hs); [done | lia |].
      exists t. split; [done|]. split; [done|]. right.
      change ("" +:+ rest) with rest in Hs.
      destruct Hs as [Hs | [p Hs]]; subst rest.
      * by exists cur.
      * exists (cur +:+ String d p). by rewrite string_app_assoc.
    + destruct (IH k (cur +:+ String c "")) as (t & Hlast & Hu).
      * rewrite count_delim_app. cbn [count_delim]. rewrite Hcd. lia.
      * lia.
      * exists t. split; [done|]. by rewrite string_app_assoc in Hu.
Qed.

(** ** The frame codec: [CutMessage] *)

(** [CutMessage] never throws and never leaves defined behaviour. *)
Lemma CutMessage_returns buf d pieces :
  exists fields, CutMessage buf d pieces = Returns fields.
Proof. rewrite CutMessage_cut_fields. by eexists. Qed.

(** C2. With [maxFields >= 2], [CutMessage] returns at most [maxFields]
    fields. When it returns exactly [maxFields], the last one is the input
    from one past its [(maxFields - 1)]-th delimiter on, delimiters included.
    When the input has fewer than [maxFields - 1] delimiters, it returns fewer
    than [maxFields] fields and the last one is the text left after the last
    delimiter. *)
Theorem CutMessage_bounded (s : string) (d : ascii) (maxFields : Z) :
  2 <= maxFields ->
  exists fields,
    CutMessage s d maxFields = Returns fields
    /\ Z.of_nat (length fields) <= maxFields
    /\ (Z.of_nat (length fields) = maxFields ->
        exists i, nth_delim d (Z.to_nat (maxFields - 1)) s = Some i
                  /\ last fields = Some (suffix_from (i + 1) s))
    /\ (Z.of_nat (count_delim d s) < maxFields - 1 ->
        Z.of_nat (length fields) < maxFields
        /\ exists t, last fields = Some t /\ unsplit_rest d s t).
Proof.
  intros Hmax. rewrite CutMessage_cut_fields.
  replace (maxFields =? 1) with false by (symmetry; apply Z.eqb_neq; lia).
  eexists. split; [reflexivity|].
  destruct (Z.to_nat (maxFields - 1)) as [|k] eqn:Hk; [lia|].
  replace (maxFields - 1) with (Z.of_nat (S k)) by lia.
  rewrite cut_fields_length. split; [lia|]. split.
  - intros Hlen.
    destruct (delim_index_is_Some d s k) as [i Hi]; [lia|].
    exists i. cbn [nth_delim]. split; [done|].
    rewrite Nat.add_1_r. by apply cut_fields_last_absorb.
  - intros Hcount. split; [lia|].
    destruct (cut_fields_last_short d s (S k) "") as (t & Hlast & Hu); [done | lia |].
    by exists t.
Qed.

Lemma CutMessage_bounded_witness :
  exists fields,
    CutMessage "name$Alice$Bob" "$" 2 = Returns fields
    /\ Z.of_nat (length fields) <= 2
    /\ (Z.of_nat (length fields) = 2 ->
        exists i, nth_delim "$" (Z.to_nat (2 - 1)) "name$Alice$Bob" = Some i
                  /\ last fields = Some (suffix_from (i + 1) "name$Alice$Bob"))
    /\ (Z.of_nat (count_delim "$" "name$Alice$Bob") < 2 - 1 ->
        Z.of_nat (length fields) < 2
        /\ exists t, last fields = Some t /\ unsplit_rest "$" "name$Alice$Bob" t).
Proof. apply (CutMessage_bounded "name$Alice$Bob" "$" 2). lia. Defined.

(** C9. Joining the fields of [CutMessage] with the delimiter gives the input
    back, whatever the number of pieces asked for: [0] (cut everywhere), [1]
    (no cut) or more (bounded, the last field absorbing the rest). *)
Theorem CutMessage_join (s : string) (d : ascii) (n : Z) :
  0 <= n ->
  exists fields, CutMessage s d n = Returns fields /\ join d fields = s.
Proof.
  intros _. rewrite CutMessage_cut_fields. eexists. split; [reflexivity|].
  destruct (n =? 1); [reflexivity | apply cut_fields_join].
Qed.

Lemma CutMessage_join_witness :
  exists fields, CutMessage "chat$a$$b$" "$" 0 = Returns fields
                 /\ join "$" fields = "chat$a$$b$".
Proof. apply (CutMessage_join "chat$a$$b$" "$" 0). lia. Defined.

(** ** More on [cut_fields]: the first field, no delimiter, no bound *)

Lemma cut_fields_first d a : forall rk cur rest,
  count_delim d a = O ->
  (rk =? 0) = false ->
  cut_fields d rk cur (a +:+ String d rest)
  = (cur +:+ a) :: cut_fields d (rk - 1) "" rest.
Proof.
  induction a as [|c a IH]; intros rk cur rest Ha Hrk.
  - change ("" +:+ String d rest) with (String d rest). cbn [cut_fields].
    by rewrite Ascii.eqb_refl, Hrk, string_app_nil_r.
  - rewrite string_app_cons. cbn [cut_fields count_delim] in *.
    destruct (Ascii.eqb c d); [discriminate|].
    rewrite IH by done. by rewrite string_app_assoc.
Qed.

Lemma cut_fields_no_delim d rest : forall rk cur,
  count_delim d rest = O -> cut_fields d rk cur rest = [cur +:+ rest].
Proof.
  induction rest as [|c rest IH]; intros rk cur Hrest; cbn [cut_fields count_delim] in *.
  - by rewrite string_app_nil_r.
  - destruct (Ascii.eqb c d); [discriminate|].
    rewrite IH by done. by rewrite string_app_assoc.
Qed.

Lemma cut_fields_length_unbounded d rest : forall rk cur,
  rk < 0 -> length (cut_fields d rk cur rest) = S (count_delim d rest).
Proof.
  induction rest as [|c rest IH]; intros rk cur Hrk; cbn [cut_fields count_delim].
  - reflexivity.
  - destruct (Ascii.eqb c d).
    + replace (rk =? 0) with false by (symmetry; apply Z.eqb_neq; lia).
      cbn [length]. rewrite IH by lia. reflexivity.
    + by rewrite IH.
Qed.

(** A text with a delimiter is its first field, the delimiter and the rest. *)
Lemma split_at_first_delim d s :
  count_delim d s <> O ->
  exists payload, s = before_delim d s +:+ String d payload
                  /\ count_delim d (before_delim d s) = O.
Proof.
  induction s as [|c s IH]; cbn [count_delim before_delim]; [done|].
  destruct (Ascii.eqb c d) eqn:Hcd.
  - intros _. apply Ascii.eqb_eq in Hcd as ->. by exists s.
  - intros Hs. destruct IH as (payload & Heq & Hcount); [done|].
    exists payload. rewrite string_app_cons, <- Heq.
    cbn [count_delim]. by rewrite Hcd.
Qed.

Lemma before_delim_app d a rest :
  count_delim d a = O -> before_delim d (a +:+ String d rest) = a.
Proof.
  induction a as [|c a IH]; intros Ha.
  - change ("" +:+ String d rest) with (String d rest). cbn.
    by rewrite Ascii.eqb_refl.
  - rewrite string_app_cons. cbn [before_delim count_delim] in *.
    destruct (Ascii.eqb c d); [discriminate|]. by rewrite IH.
Qed.

(** [CutMessage] with one piece is the text itself. *)
Lemma CutMessage_one_piece buf d : CutMessage buf d 1 = Returns [buf].
Proof. by rewrite CutMessage_cut_fields. Qed.

Example CutMessage_absorbs :
  CutMessage "name$Alice$Bob" "$" 2 = Returns ["name"; "Alice$Bob"]
  /\ nth_delim "$" 1 "name$Alice$Bob" = Some 4%nat
  /\ suffix_from 5 "name$Alice$Bob" = "Alice$Bob".
Proof. repeat split; reflexivity. Qed.

Example CutMessage_short :
  CutMessage "a$b" "$" 4 = Returns ["a"; "b"]
  /\ CutMessage "" "$" 2 = Returns [""]
  /\ CutMessage "getup$" "$" 2 = Returns ["getup"; ""].
Proof. repeat split; reflexivity. Qed.

Example CutMessage_everywhere :
  CutMessage "a,,b," "," 0 = Returns ["a"; ""; "b"; ""].
Proof. reflexivity. Qed.

(** ** The command protocol: [Parse] *)

Example Parse_frames :
  Parse "pos$12,34"
  = Returns {| type := WheatCommandType.pos;
               nParam0 := Some 12; nParam1 := Some 34; strParam := "" |}
  /\ Parse "move$-3,7"
     = Returns {| type := WheatCommandType.move;
                  nParam0 := Some (-3); nParam1 := Some 7; strParam := "" |}
  /\ Parse "name$Alice$Bob"
     = Returns {| type := WheatCommandType.name;
                  nParam0 := None; nParam1 := None; strParam := "Alice$Bob" |}
  /\ Parse "sleep$ 12th"
     = Returns {| type := WheatCommandType.sleep;
                  nParam0 := Some 12; nParam1 := None; strParam := "" |}
  /\ Parse "type$male"
     = Returns {| type := WheatCommandType.type;
                  nParam0 := Some 0; nParam1 := None; strParam := "" |}
  /\ Parse "Name$x" = Returns (resultCommand0 WheatCommandType.unknown).
Proof. repeat split; reflexivity. Qed.


Lemma GetCommandTypeFromString_unknown sz :
  GetCommandTypeFromString sz = WheatCommandType.unknown <-> sz ∉ command_tokens.
Proof.
  split.
  - intros H Hin. unfold command_tokens in Hin.
    repeat (apply elem_of_cons in Hin as [-> | Hin]; [discriminate H|]).
    by apply elem_of_nil in Hin.
  - intros H. unfold GetCommandTypeFromString.
    repeat match goal with
    | |- context [String.eqb sz ?t] =>
        destruct (String.eqb_spec sz t) as [->|?];
        [exfalso; apply H; unfold command_tokens; set_solver|]
    end.
    reflexivity.
Qed.

(** A frame without [$] is [unknown]. *)
Lemma Parse_no_delim buf :
  count_delim "$" buf = O ->
  Parse buf = Returns (resultCommand0 WheatCommandType.unknown).
Proof.
  intros Hbuf. unfold Parse. rewrite CutMessage_cut_fields.
  change (2 =? 1) with false. cbv iota.
  by rewrite cut_fields_no_delim.
Qed.

(** A frame with a [$]: the token selects the decoding of the payload. *)
Lemma Parse_delim token payload :
  count_delim "$" token = O ->
  Parse (token +:+ String "$" payload)
  = let t := GetCommandTypeFromString token in
    match t with
    | WheatCommandType.name | WheatCommandType.chat =>
        Returns {| type := t; nParam0 := None; nParam1 := None; strParam := payload |}
    | WheatCommandType.type | WheatCommandType.sleep =>
        n0 ← atoi payload;
        Returns {| type := t; nParam0 := Some n0; nParam1 := None; strParam := "" |}
    | WheatCommandType.move | WheatCommandType.pos =>
        vecPosCutTemp ← CutMessage payload "," default_pieces;
        p0 ← vec_at vecPosCutTemp 0;
        n0 ← atoi p0;
        p1 ← vec_at vecPosCutTemp 1;
        n1 ← atoi p1;
        Returns {| type := t; nParam0 := Some n0; nParam1 := Some n1; strParam := "" |}
    | WheatCommandType.getup | WheatCommandType.unknown => Returns (resultCommand0 t)
    end.
Proof.
  intros Htoken. unfold Parse. rewrite CutMessage_cut_fields.
  change (2 =? 1) with false. cbv iota.
  rewrite cut_fields_first by done. change (2 - 1 - 1) with 0.
  rewrite cut_fields_zero.
  change ("" +:+ token) with token. change ("" +:+ payload) with payload.
  cbn. by destruct (GetCommandTypeFromString token).
Qed.

Lemma bind_Returns_inv {A B} (m : outcome A) (k : A -> outcome B) b :
  m ≫= k = Returns b -> exists a, m = Returns a /\ k a = Returns b.
Proof. destruct m as [a| |]; [by exists a | discriminate | discriminate]. Qed.

(** When [Parse] returns, the command has the type of its token. *)
Lemma Parse_delim_type token payload c :
  count_delim "$" token = O ->
  Parse (token +:+ String "$" payload) = Returns c ->
  type c = GetCommandTypeFromString token.
Proof.
  intros Htoken. rewrite (Parse_delim token payload Htoken). cbv zeta.
  destruct (GetCommandTypeFromString token); intros H;
    repeat (apply bind_Returns_inv in H as (? & _ & H));
    by injection H as <-.
Qed.

Lemma atoi_no_throw s : (exists v, atoi s = Returns v) \/ atoi s = Undefined.
Proof.
  unfold atoi. destruct (_ && _); [left; by eexists | by right].
Qed.

(** A move or pos frame whose payload has no comma indexes the one-element
    vector of its comma fields at [1]. *)
Lemma Parse_pos_no_comma payload :
  count_delim "," payload = O ->
  Parse ("pos$" +:+ payload) = Undefined /\ Parse ("move$" +:+ payload) = Undefined.
Proof.
  intros Hpayload.
  split.
  - change ("pos$" +:+ payload) with ("pos" +:+ String "$" payload).
    rewrite (Parse_delim "pos" payload eq_refl).
    change (GetCommandTypeFromString "pos") with WheatCommandType.pos. cbv zeta iota.
    rewrite CutMessage_cut_fields. change (default_pieces =? 1) with false. cbv iota.
    rewrite cut_fields_no_delim by done. cbn -[atoi].
    by destruct (atoi_no_throw ("" +:+ payload)) as [[v ->] | ->].
  - change ("move$" +:+ payload) with ("move" +:+ String "$" payload).
    rewrite (Parse_delim "move" payload eq_refl).
    change (GetCommandTypeFromString "move") with WheatCommandType.move. cbv zeta iota.
    rewrite CutMessage_cut_fields. change (default_pieces =? 1) with false. cbv iota.
    rewrite cut_fields_no_delim by done. cbn -[atoi].
    by destruct (atoi_no_throw ("" +:+ payload)) as [[v ->] | ->].
Qed.

(** With a comma in the payload the two reads are in bounds: the fields
    decoded are the text before the first comma and the field after it. *)
Lemma cut_fields_head d rest : forall rk cur,
  rk < 0 ->
  exists others,
    cut_fields d rk cur rest = (cur +:+ before_delim d rest) :: others.
Proof.
  induction rest as [|c rest IH]; intros rk cur Hrk; cbn [cut_fields before_delim].
  - exists []. by rewrite string_app_nil_r.
  - destruct (Ascii.eqb c d).
    + replace (rk =? 0) with false by (symmetry; apply Z.eqb_neq; lia).
      rewrite string_app_nil_r. by eexists.
    + destruct (IH rk (cur +:+ String c "") Hrk) as [others ->].
      exists others. by rewrite string_app_assoc.
Qed.

Lemma Parse_pos_with_comma a rest :
  count_delim "," a = O ->
  Parse ("pos$" +:+ a +:+ String "," rest)
  = (n0 ← atoi a; n1 ← atoi (before_delim "," rest);
     Returns {| type := WheatCommandType.pos;
                nParam0 := Some n0; nParam1 := Some n1; strParam := "" |}).
Proof.
  intros Ha.
  change ("pos$" +:+ a +:+ String "," rest)
    with ("pos" +:+ String "$" (a +:+ String "," rest)).
  rewrite (Parse_delim "pos" _ eq_refl).
  change (GetCommandTypeFromString "pos") with WheatCommandType.pos. cbv zeta iota.
  rewrite CutMessage_cut_fields. change (default_pieces =? 1) with false. cbv iota.
  rewrite cut_fields_first by done.
  destruct (cut_fields_head "," rest (default_pieces - 1 - 1) "") as [others ->]; [done|].
  reflexivity.
Qed.

(** C1. The frame "pos$5" has one comma field, whatever the number of pieces
    asked of the comma split. [Parse] reads [vecPosCutTemp[1]] of the
    one-element vector all the same: undefined behaviour, where the
    specification asks for a defined malformed-frame outcome. The same holds
    of "pos$" and "move$7". *)
Theorem Parse_pos_one_field_undefined :
  (forall pieces, CutMessage "5" "," pieces = Returns ["5"])
  /\ vec_at ["5"] 1 = Undefined
  /\ Parse "pos$5" = Undefined
  /\ Parse "pos$" = Undefined
  /\ Parse "move$7" = Undefined.
Proof.
  split; [|repeat split; reflexivity].
  intros pieces. rewrite CutMessage_cut_fields.
  destruct (pieces =? 1); [reflexivity|].
  by rewrite cut_fields_no_delim.
Qed.

(** C5. [Parse] returns the unknown command exactly when the frame has no
    [$] or the text in front of its first [$] is not one of the seven tokens
    (the empty token is not one). "getup" is unknown, "getup$" is getup. *)
Theorem Parse_unknown_iff (buf : string) :
  (Parse buf = Returns (resultCommand0 WheatCommandType.unknown)
   <-> (count_delim "$" buf = O \/ before_delim "$" buf ∉ command_tokens))
  /\ ("" ∉ command_tokens)
  /\ Parse "getup" = Returns (resultCommand0 WheatCommandType.unknown)
  /\ Parse "getup$" = Returns (resultCommand0 WheatCommandType.getup).
Proof.
  split; [|split; [|split; reflexivity]].
  - destruct (decide (count_delim "$" buf = O)) as [Hno | Hsome].
    { split; [by left | intros _; by apply Parse_no_delim]. }
    destruct (split_at_first_delim "$" buf Hsome) as (payload & Hbuf & Htoken).
    set (token := before_delim "$" buf) in *.
    rewrite <- GetCommandTypeFromString_unknown. rewrite Hbuf at 1.
    split.
    + intros H. right. by rewrite <- (Parse_delim_type _ _ _ Htoken H).
    + intros [? | Ht]; [done|].
      rewrite (Parse_delim token payload Htoken). cbv zeta. by rewrite Ht.
  - intros Hin. unfold command_tokens in Hin.
    repeat (apply elem_of_cons in Hin as [Hin | Hin]; [discriminate Hin|]).
    by apply elem_of_nil in Hin.
Qed.

(** C10. The comma split of a move or pos payload has no bound: it yields one
    field per comma and one more. [Parse] decodes the first two and ignores
    the others, so "pos$1,2,3" is the position (1, 2). *)
Theorem Parse_pos_extra_fields :
  (forall payload, exists fields,
      CutMessage payload "," default_pieces = Returns fields
      /\ length fields = S (count_delim "," payload))
  /\ (forall a b rest,
        count_delim "," a = O -> count_delim "," b = O ->
        let payload := a +:+ String "," (b +:+ String "," rest) in
        Parse ("pos$" +:+ payload)
        = (n0 ← atoi a; n1 ← atoi b;
           Returns {| type := WheatCommandType.pos;
                      nParam0 := Some n0; nParam1 := Some n1; strParam := "" |})
        /\ Parse ("move$" +:+ payload)
          = (n0 ← atoi a; n1 ← atoi b;
             Returns {| type := WheatCommandType.move;
                        nParam0 := Some n0; nParam1 := Some n1; strParam := "" |}))
  /\ CutMessage "1,2,3" "," default_pieces = Returns ["1"; "2"; "3"]
  /\ Parse "pos$1,2,3"
     = Returns {| type := WheatCommandType.pos;
                  nParam0 := Some 1; nParam1 := Some 2; strParam := "" |}.
Proof.
  split; [|split; [|split; reflexivity]].
  - intros payload. rewrite CutMessage_cut_fields. eexists. split; [reflexivity|].
    change (default_pieces =? 1) with false. cbv iota.
    by apply cut_fields_length_unbounded.
  - intros a b rest Ha Hb payload.
    assert (Hcut : CutMessage payload "," default_pieces
                   = Returns (a :: b :: cut_fields "," (-3) "" rest)).
    { rewrite CutMessage_cut_fields. change (default_pieces =? 1) with false. cbv iota.
      unfold payload. rewrite cut_fields_first by done.
      rewrite cut_fields_first by done. reflexivity. }
    split.
    + change ("pos$" +:+ payload) with ("pos" +:+ String "$" payload).
      rewrite (Parse_delim "pos" payload eq_refl).
      change (GetCommandTypeFromString "pos") with WheatCommandType.pos. cbv zeta iota.
      rewrite Hcut. reflexivity.
    + change ("move$" +:+ payload) with ("move" +:+ String "$" payload).
      rewrite (Parse_delim "move" payload eq_refl).
      change (GetCommandTypeFromString "move") with WheatCommandType.move. cbv zeta iota.
      rewrite Hcut. reflexivity.
Qed.

Lemma Parse_pos_extra_fields_witness :
  Parse ("pos$" +:+ "12" +:+ String "," (" 34" +:+ String "," "56,78"))
  = Returns {| type := WheatCommandType.pos;
               nParam0 := Some 12; nParam1 := Some 34; strParam := "" |}.
Proof.
  destruct Parse_pos_extra_fields as (_ & H & _).
  destruct (H "12" " 34" "56,78" eq_refl eq_refl) as [Hpos _].
  exact Hpos.
Defined.

(** C6, as the code has it. [MakeMessage] is a stub: it returns the null
    pointer for every command and serializes nothing. *)
Theorem MakeMessage_null (command : WheatCommand) : MakeMessage command = None.
Proof. reflexivity. Qed.

(** C6 as the specification states it does not hold: for the getup command
    there are no bytes that [MakeMessage] returns. *)
Lemma MakeMessage_not_bytes :
  ~ (forall command, exists bytes, MakeMessage command = Some bytes).
Proof.
  intros H. destruct (H (resultCommand0 WheatCommandType.getup)) as [bytes Hb].
  discriminate Hb.
Qed.

(** ** Further properties of the frame codec *)











(** *** The four-argument [CutMessage] with a length shorter than the text *)

Lemma CutMessage_for_cut_fields_tail d rest : forall buf pre cur tail remainKnives result,
  buf = pre +:+ cur +:+ rest +:+ tail ->
  CutMessage_for (S (String.length rest)) buf buf
    (String.length pre + String.length cur + String.length rest) d
    (String.length pre) (String.length pre + String.length cur) remainKnives result
  = Returns (result ++ cut_fields_tail d remainKnives cur rest tail).
Proof.
  induction rest as [|c rest IH]; intros buf pre cur tail rk result Hbuf.
  - cbn [String.length]. rewrite CutMessage_for_S, Nat.add_0_r, Nat.eqb_refl, orb_true_r.
    cbn [cut_fields_tail].
    destruct (rk =? 0).
    + rewrite (substr_from_field buf pre (cur +:+ tail)) by done. reflexivity.
    + replace (String.length pre + String.length cur - String.length pre)%nat
        with (String.length cur) by lia.
      rewrite (substr_field buf pre cur tail) by done. reflexivity.
  - assert (Hc : c_index buf (String.length pre + String.length cur) = c).
    { rewrite Hbuf, <- string_app_assoc, <- string_length_app.
      rewrite string_app_cons. apply c_index_field. }
    cbn [String.length]. rewrite CutMessage_for_S, Hc.
    replace (String.length pre + String.length cur
             =? String.length pre + String.length cur + S (String.length rest))%nat
      with false by (symmetry; apply Nat.eqb_neq; lia).
    rewrite orb_false_r. cbn [cut_fields_tail].
    destruct (Ascii.eqb c d) eqn:Hcd.
    + destruct (rk =? 0).
      * rewrite (substr_from_field buf pre (cur +:+ String c rest +:+ tail)) by done.
        reflexivity.
      * replace (String.length pre + String.length cur - String.length pre)%nat
          with (String.length cur) by lia.
        rewrite (substr_field buf pre cur (String c rest +:+ tail)) by done.
        change (Returns cur ≫= ?k) with (k cur). cbv beta.
        specialize (IH buf ((pre +:+ cur) +:+ String c "") "" tail (rk - 1) (result ++ [cur])).
        rewrite !string_length_app in IH. cbn [String.length] in IH.
        rewrite Nat.add_0_r in IH.
        replace (String.length pre + String.length cur + S (String.length rest))%nat
          with (String.length pre + String.length cur + 1 + String.length rest)%nat by lia.
        rewrite IH.
        { by rewrite <- app_assoc. }
        rewrite Hbuf, !string_app_assoc, !string_app_cons. reflexivity.
    + specialize (IH buf pre (cur +:+ String c "") tail rk result).
      rewrite !string_length_app in IH. cbn [String.length] in IH.
      replace (String.length pre + String.length cur + S (String.length rest))%nat
        with (String.length pre + (String.length cur + 1) + String.length rest)%nat by lia.
      rewrite Nat.add_assoc in IH. rewrite Nat.add_assoc. apply IH.
      rewrite Hbuf, !string_app_assoc, !string_app_cons. reflexivity.
Qed.

Lemma cut_fields_tail_dropped d rest : forall rk cur tail,
  rk < 0 \/ Z.of_nat (count_delim d rest) < rk ->
  cut_fields_tail d rk cur rest tail = cut_fields d rk cur rest.
Proof.
  induction rest as [|c rest IH]; intros rk cur tail Hrk;
    cbn [cut_fields_tail cut_fields count_delim] in *.
  - by replace (rk =? 0) with false by (symmetry; apply Z.eqb_neq; lia).
  - destruct (Ascii.eqb c d).
    + replace (rk =? 0) with false by (symmetry; apply Z.eqb_neq; lia).
      f_equal. apply IH. lia.
    + apply IH. lia.
Qed.

Lemma cut_fields_tail_absorbed d rest : forall rk cur tail,
  0 <= rk <= Z.of_nat (count_delim d rest) ->
  cut_fields_tail d rk cur rest tail = cut_fields d rk cur (rest +:+ tail).
Proof.
  induction rest as [|c rest IH]; intros rk cur tail Hrk;
    cbn [cut_fields_tail count_delim] in *.
  - replace rk with 0 by lia. change ("" +:+ tail) with tail.
    by rewrite cut_fields_zero.
  - rewrite string_app_cons. cbn [cut_fields].
    destruct (Ascii.eqb c d).
    + destruct (Z.eqb_spec rk 0) as [Hz | Hnz].
      * reflexivity.
      * f_equal. apply IH. lia.
    + apply IH. lia.
Qed.

Lemma substring_0_0 s : String.substring 0 0 s = "".
Proof. by destruct s. Qed.

Lemma string_prefix_split s : forall len,
  (len <= String.length s)%nat ->
  s = String.substring 0 len s +:+ String.substring len (String.length s - len) s
  /\ String.length (String.substring 0 len s) = len.
Proof.
  induction s as [|c s IH]; intros [|len] Hlen;
    try (rewrite substring_0_0, Nat.sub_0_r, substring_0_all; by split).
  - cbn [String.length] in Hlen. lia.
  - cbn [String.length] in *. cbn [String.substring Nat.sub].
    destruct (IH len) as [Hs Hl]; [lia|].
    rewrite string_app_cons. cbn [String.length]. by rewrite <- Hs, Hl.
Qed.

(** X6. The four-argument [CutMessage] scans the first [len] characters only,
    but a last field that absorbs the remainder runs to the end of the whole
    text. So with [pieces] zero, negative, or larger than the number of
    delimiters in the first [len] characters plus one, the result is the one
    for these [len] characters alone; otherwise it is the result for the
    whole text, whatever [len] is. *)
Theorem CutMessage_len_shorter (buf : string) (len : nat) (d : ascii) (pieces : Z) :
  (len <= String.length buf)%nat ->
  let scanned := String.substring 0 len buf in
  CutMessage_len buf len d pieces
  = if (pieces <=? 0) || (Z.of_nat (count_delim d scanned) + 1 <? pieces)
    then CutMessage scanned d pieces
    else CutMessage buf d pieces.
Proof.
  intros Hlen scanned.
  destruct (string_prefix_split buf len Hlen) as [Hbuf Hscanned].
  fold scanned in Hbuf, Hscanned.
  set (tail := String.substring len (String.length buf - len) buf) in *.
  rewrite !CutMessage_cut_fields. unfold CutMessage_len.
  destruct (Z.eqb_spec pieces 1) as [-> | Hp1].
  { change (1 <=? 0) with false.
    by replace (Z.of_nat (count_delim d scanned) + 1 <? 1)
      with false by (symmetry; apply Z.ltb_ge; lia). }
  cbv zeta.
  pose proof (CutMessage_for_cut_fields_tail d scanned buf "" "" tail (pieces - 1) []) as H.
  cbn [String.length Nat.add] in H. rewrite Hscanned in H.
  rewrite H by done. clear H. cbn [app].
  destruct (Z.leb_spec pieces 0) as [Hp | Hp]; cbn [orb].
  - f_equal. apply cut_fields_tail_dropped. lia.
  - destruct (Z.ltb_spec (Z.of_nat (count_delim d scanned) + 1) pieces) as [Hc | Hc].
    + f_equal. apply cut_fields_tail_dropped. lia.
    + rewrite cut_fields_tail_absorbed by lia. by rewrite <- Hbuf.
Qed.

Lemma CutMessage_len_shorter_witness :
  CutMessage_len "a$b$c" 3 "$" 0 = Returns ["a"; "b"]
  /\ CutMessage_len "a$b$c" 3 "$" 2 = Returns ["a"; "b$c"].
Proof.
  split.
  - apply (CutMessage_len_shorter "a$b$c" 3 "$" 0). cbn. lia.
  - apply (CutMessage_len_shorter "a$b$c" 3 "$" 2). cbn. lia.
Defined.

(** ** Further properties of the command protocol *)

Lemma after_delim_app d a rest :
  count_delim d a = O -> after_delim d (a +:+ String d rest) = rest.
Proof.
  induction a as [|c a IH]; intros Ha.
  - change ("" +:+ String d rest) with (String d rest). cbn.
    by rewrite Ascii.eqb_refl.
  - rewrite string_app_cons. cbn [after_delim count_delim] in *.
    destruct (Ascii.eqb c d); [discriminate|]. by rewrite IH.
Qed.

(** A text with a delimiter, cut at the first one. *)
Lemma split_first_delim d s :
  count_delim d s <> O ->
  s = before_delim d s +:+ String d (after_delim d s)
  /\ count_delim d (before_delim d s) = O.
Proof.
  intros Hs. destruct (split_at_first_delim d s Hs) as (payload & Heq & Hcount).
  split; [|done]. rewrite Heq at 3. by rewrite after_delim_app.
Qed.

Lemma vec_at_no_throw {A} (v : list A) i e : vec_at v i <> Throws e.
Proof. unfold vec_at. by destruct (v !! i). Qed.

(** The comma fields that [Parse] reads from a move or pos payload. *)
Lemma Parse_xy_payload (t : WheatCommandType.t) payload :
  (vecPosCutTemp ← CutMessage payload "," default_pieces;
   p0 ← vec_at vecPosCutTemp 0;
   n0 ← atoi p0;
   p1 ← vec_at vecPosCutTemp 1;
   n1 ← atoi p1;
   Returns {| type := t; nParam0 := Some n0; nParam1 := Some n1; strParam := "" |})
  = if (count_delim "," payload =? 0)%nat then Undefined
    else
      n0 ← atoi (before_delim "," payload);
      n1 ← atoi (before_delim "," (after_delim "," payload));
      Returns {| type := t; nParam0 := Some n0; nParam1 := Some n1; strParam := "" |}.
Proof.
  rewrite CutMessage_cut_fields. change (default_pieces =? 1) with false. cbv iota.
  destruct (Nat.eqb_spec (count_delim "," payload) 0) as [Hno | Hsome].
  - rewrite cut_fields_no_delim by done. change ("" +:+ payload) with payload.
    cbn -[atoi]. by destruct (atoi_no_throw payload) as [[v ->] | ->].
  - destruct (split_first_delim "," payload Hsome) as [Hpayload Ha].
    rewrite Hpayload at 1. rewrite cut_fields_first by done.
    destruct (cut_fields_head "," (after_delim "," payload) (default_pieces - 1 - 1) "")
      as [others ->]; [done|].
    reflexivity.
Qed.

(** [Parse] frame by frame: the type is the one of the token, the payload is
    all the text behind the first [$]. *)
Lemma Parse_frame buf :
  Parse buf
  = let t := frame_type buf in
    let payload := after_delim "$" buf in
    match t with
    | WheatCommandType.name | WheatCommandType.chat =>
        Returns {| type := t; nParam0 := None; nParam1 := None; strParam := payload |}
    | WheatCommandType.type | WheatCommandType.sleep =>
        n0 ← atoi payload;
        Returns {| type := t; nParam0 := Some n0; nParam1 := None; strParam := "" |}
    | WheatCommandType.move | WheatCommandType.pos =>
        if (count_delim "," payload =? 0)%nat then Undefined
        else
          n0 ← atoi (before_delim "," payload);
          n1 ← atoi (before_delim "," (after_delim "," payload));
          Returns {| type := t; nParam0 := Some n0; nParam1 := Some n1; strParam := "" |}
    | WheatCommandType.getup | WheatCommandType.unknown => Returns (resultCommand0 t)
    end.
Proof.
  unfold frame_type.
  destruct (Nat.eqb_spec (count_delim "$" buf) 0) as [Hno | Hsome].
  { by rewrite Parse_no_delim. }
  destruct (split_first_delim "$" buf Hsome) as [Hbuf Htoken].
  rewrite Hbuf at 1. rewrite (Parse_delim _ _ Htoken). cbv zeta.
  destruct (GetCommandTypeFromString (before_delim "$" buf));
    try reflexivity; apply Parse_xy_payload.
Qed.

(** X7. [Parse] never throws: every frame either gives a command or runs
    into undefined behaviour. *)
Theorem Parse_never_throws (buf : string) (e : exception) : Parse buf <> Throws e.
Proof.
  rewrite Parse_frame. cbv zeta.
  destruct (frame_type buf); try discriminate.
  - by destruct (atoi_no_throw (after_delim "$" buf)) as [[v ->] | ->].
  - by destruct (atoi_no_throw (after_delim "$" buf)) as [[v ->] | ->].
  - destruct (count_delim "," _ =? 0)%nat; [discriminate|].
    destruct (atoi_no_throw (before_delim "," (after_delim "$" buf))) as [[v ->] | ->];
      [|discriminate].
    by destruct (atoi_no_throw
                   (before_delim "," (after_delim "," (after_delim "$" buf))))
      as [[v' ->] | ->].
  - destruct (count_delim "," _ =? 0)%nat; [discriminate|].
    destruct (atoi_no_throw (before_delim "," (after_delim "$" buf))) as [[v ->] | ->];
      [|discriminate].
    by destruct (atoi_no_throw
                   (before_delim "," (after_delim "," (after_delim "$" buf))))
      as [[v' ->] | ->].
Qed.

(** X8. Frames whose token is name, chat or getup, and frames of no known
    token, always give a command. For name and chat the string parameter is
    all the text behind the first [$], further [$] included; for getup the
    payload is ignored. *)
Theorem Parse_text_frames (buf : string) :
  match frame_type buf with
  | WheatCommandType.name | WheatCommandType.chat =>
      Parse buf = Returns {| type := frame_type buf; nParam0 := None;
                             nParam1 := None; strParam := after_delim "$" buf |}
  | WheatCommandType.getup | WheatCommandType.unknown =>
      Parse buf = Returns (resultCommand0 (frame_type buf))
  | _ => True
  end.
Proof. rewrite Parse_frame. cbv zeta. by destruct (frame_type buf). Qed.

(** X9. Frames whose token is type or sleep decode all the text behind the
    first [$] with [atoi]. Frames whose token is move or pos are undefined
    when that text has no comma; otherwise they decode the text before its
    first comma and the text between its first and second comma, and ignore
    what follows. *)
Theorem Parse_numeric_frames (buf : string) :
  let t := frame_type buf in
  let payload := after_delim "$" buf in
  match t with
  | WheatCommandType.type | WheatCommandType.sleep =>
      Parse buf
      = (n0 ← atoi payload;
         Returns {| type := t; nParam0 := Some n0; nParam1 := None; strParam := "" |})
  | WheatCommandType.move | WheatCommandType.pos =>
      Parse buf
      = if (count_delim "," payload =? 0)%nat then Undefined
        else
          n0 ← atoi (before_delim "," payload);
          n1 ← atoi (before_delim "," (after_delim "," payload));
          Returns {| type := t; nParam0 := Some n0; nParam1 := Some n1; strParam := "" |}
  | _ => True
  end.
Proof. rewrite Parse_frame. cbv zeta. by destruct (frame_type buf). Qed.

Lemma atoi_range s n : atoi s = Returns n -> INT_MIN <= n <= INT_MAX.
Proof.
  unfold atoi. cbv zeta.
  destruct (Z.leb_spec INT_MIN
              match skip_spaces s with
              | String "-" s' => - read_digits 0 s'
              | String "+" s' => read_digits 0 s'
              | s' => read_digits 0 s'
              end) as [Hlo | Hlo]; [|discriminate].
  destruct (Z.leb_spec
              match skip_spaces s with
              | String "-" s' => - read_digits 0 s'
              | String "+" s' => read_digits 0 s'
              | s' => read_digits 0 s'
              end INT_MAX) as [Hhi | Hhi]; [|discriminate].
  cbn [andb]. by injection 1 as <-.
Qed.

(** Membership of a command type in a list that is written out. *)
Ltac type_listed :=
  solve [repeat first [apply list_elem_of_here | apply list_elem_of_further]].

Ltac type_not_listed H :=
  repeat (apply elem_of_cons in H as [H | H]; [discriminate H|]);
  by apply elem_of_nil in H.

Ltac written_iff_listed :=
  split; intros Hx;
  first [ by eexists
        | type_listed
        | by destruct Hx as [? Hx]
        | type_not_listed Hx ].

(** X10. What a command returned by [Parse] holds: its type is the one of
    the frame's token; [nParam[0]] is written exactly for type, sleep, move
    and pos, [nParam[1]] exactly for move and pos, both within the range of
    [int]; [strParam] is left empty except for name and chat. *)
Theorem Parse_sound (buf : string) (c : WheatCommand) :
  Parse buf = Returns c ->
  type c = frame_type buf
  /\ (is_Some (nParam0 c)
      <-> type c ∈ [WheatCommandType.type; WheatCommandType.sleep;
                    WheatCommandType.move; WheatCommandType.pos])
  /\ (is_Some (nParam1 c)
      <-> type c ∈ [WheatCommandType.move; WheatCommandType.pos])
  /\ (forall n, nParam0 c = Some n \/ nParam1 c = Some n -> INT_MIN <= n <= INT_MAX)
  /\ (strParam c <> ""
      -> type c ∈ [WheatCommandType.name; WheatCommandType.chat]).
Proof.
  rewrite Parse_frame. cbv zeta.
  destruct (frame_type buf) eqn:Ht; intros H;
    try (destruct (count_delim "," _ =? 0)%nat; [discriminate H|]);
    repeat (apply bind_Returns_inv in H as (? & ? & H));
    injection H as <-; cbn [type nParam0 nParam1 strParam resultCommand0];
    (split; [done|]);
    (split; [written_iff_listed|]);
    (split; [written_iff_listed|]);
    (split; [intros n [Hn | Hn]; try discriminate Hn; injection Hn as <-;
             eauto using atoi_range|]);
    intros Hstr; first [done | type_listed].
Qed.

Lemma Parse_sound_witness :
  let c := {| type := WheatCommandType.move; nParam0 := Some (-3);
              nParam1 := Some 7; strParam := "" |} in
  type c = frame_type "move$-3,7,9"
  /\ (is_Some (nParam0 c)
      <-> type c ∈ [WheatCommandType.type; WheatCommandType.sleep;
                    WheatCommandType.move; WheatCommandType.pos])
  /\ (is_Some (nParam1 c)
      <-> type c ∈ [WheatCommandType.move; WheatCommandType.pos])
  /\ (forall n, nParam0 c = Some n \/ nParam1 c = Some n -> INT_MIN <= n <= INT_MAX)
  /\ (strParam c <> ""
      -> type c ∈ [WheatCommandType.name; WheatCommandType.chat]).
Proof. intros c. apply (Parse_sound "move$-3,7,9" c). reflexivity. Defined.

(** X11. The token table read both ways: a text has a known type exactly
    when it is the token of that type, and the unknown type exactly when it
    is none of the seven tokens. Tokens are compared with their case. *)
Theorem GetCommandTypeFromString_token (sz : string) (t : WheatCommandType.t) :
  GetCommandTypeFromString sz = t
  <-> token_of t = Some sz
      \/ (t = WheatCommandType.unknown /\ sz ∉ command_tokens).
Proof.
  split.
  - intros <-.
    destruct (decide (sz ∈ command_tokens)) as [Hin | Hout].
    + left. unfold command_tokens in Hin.
      repeat (apply elem_of_cons in Hin as [-> | Hin]; [reflexivity|]).
      by apply elem_of_nil in Hin.
    + right. split; [|done]. by apply GetCommandTypeFromString_unknown.
  - intros [Htok | [-> Hout]].
    + destruct t; cbn in Htok; try discriminate; by injection Htok as <-.
    + by apply GetCommandTypeFromString_unknown.
Qed.

(** ** The connection actor: [Sleeper] *)

Import wheat.

Section SleeperProperties.
Context {R : Type} `{!Room R} `{!WheatCodec}.
Implicit Types (w : World R) (msg : string) (cmd : WheatCommand).

Lemma drop_calls (old new : list Call) : drop (length old) (old ++ new) = new.
Proof. by rewrite drop_app_length. Qed.

Lemma Act_bind_run {A B} (m : Act R A) (k : A -> Act R B) w :
  (m ≫= k) w = let '(a, w') := m w in k a w'.
Proof. reflexivity. Qed.

Lemma Act_ret_run {A} (a : A) w : (mret a : Act R A) w = (a, w).
Proof. reflexivity. Qed.

(** Runs the primitive actions of a method on a world. *)
Ltac run :=
  repeat (rewrite ?Act_bind_run, ?Act_ret_run;
          unfold get_this, set_this, do_call, room_do, room_ask;
          cbn [this m_room calls fst snd]).

(** Membership in a list of calls that is written out. *)
Ltac in_calls :=
  repeat first [apply list_elem_of_here | apply list_elem_of_further].

Ltac cases_in_calls Hin :=
  repeat (apply elem_of_cons in Hin as [Hin | Hin];
          [try discriminate Hin|]);
  try (by apply elem_of_nil in Hin).

(** What one turn of the reader does, call by call. *)
Lemma Reader_frame_unfold msg w :
  Reader_frame msg w
  = let s := this w in
    let w1 := mkWorld s (m_room w)
                (calls w ++ [IPTrafficRecorder_OnData (m_ip s)
                               (Z.of_nat (String.length msg) * 8)]) in
    match ParseCommand msg with
    | Some cmd =>
        let '(forward, w2) := visit cmd w1 in
        if forward then
          (tt, mkWorld (this w2) (Deliver (m_id s) msg (m_room w2))
                 (calls w2 ++ [Room_Deliver (m_id s) msg]))
        else (tt, w2)
    | None => (tt, w1)
    end.
Proof.
  unfold Reader_frame. run. destruct (ParseCommand msg) as [cmd|]; [|done].
  run. by destruct (visit cmd _) as [[] w2].
Qed.

(** C3. On a sleep frame: when the room refuses the bed, the frame is not
    passed to [Room::Deliver] and [m_bed_id] keeps its value; when the room
    grants it, [m_bed_id] becomes the requested bed and the frame read is
    passed to [Room::Deliver]. *)
Theorem Reader_frame_sleep w msg (bed : Z) :
  ParseCommand msg = Some (CmdSleep bed) ->
  let id := m_id (this w) in
  let w' := (Reader_frame msg w).2 in
  let new := calls_of (Reader_frame msg) w in
  calls w' = calls w ++ new
  /\ Room_Sleep id bed ∈ new
  /\ if (Sleep id bed (m_room w)).1
     then m_bed_id (this w') = bed
          /\ last new = Some (Room_Deliver id msg)
     else m_bed_id (this w') = m_bed_id (this w)
          /\ forall i m, Room_Deliver i m ∉ new.
Proof.
  intros Hparse id w' new. subst id w' new. unfold calls_of.
  rewrite Reader_frame_unfold, Hparse. cbv zeta. unfold visit. run.
  destruct (Sleep (m_id (this w)) bed (m_room w)) as [[] r]; run;
    rewrite <- !app_assoc, drop_calls; cbn.
  - split; [done|]. split; [in_calls | done].
  - split; [done|]. split; [in_calls|]. split; [done|].
    intros i m Hin. cases_in_calls Hin.
Qed.

(** C7. A vote-agree frame calls [Room::Agree] with the sleeper's id and a
    vote-refuse frame calls [Room::Refuse] with it; neither is passed to
    [Room::Deliver]. Every command other than these and sleep is followed
    by [Room::Deliver] of the sleeper's id and the very frame read, and no
    other [Room::Deliver] is made. *)
Theorem Reader_frame_relay w msg cmd :
  ParseCommand msg = Some cmd ->
  let id := m_id (this w) in
  let new := calls_of (Reader_frame msg) w in
  match cmd with
  | CmdVoteAgree => Room_Agree id ∈ new /\ forall i m, Room_Deliver i m ∉ new
  | CmdVoteRefuse => Room_Refuse id ∈ new /\ forall i m, Room_Deliver i m ∉ new
  | CmdSleep _ => True
  | _ => last new = Some (Room_Deliver id msg)
         /\ forall i m, Room_Deliver i m ∈ new -> i = id /\ m = msg
  end.
Proof.
  intros Hparse id new. subst id new. unfold calls_of.
  rewrite Reader_frame_unfold, Hparse. cbv zeta. unfold visit.
  destruct cmd; run; try done; rewrite <- ?app_assoc, drop_calls; cbn;
    (split; [done || in_calls | intros i m Hin; cases_in_calls Hin]);
    by injection Hin as -> ->.
Qed.

(** C8. [MakeSelfInfo] is the packed id announcement, name and sex, in this
    order, followed by one more packed command: the bed when [m_bed_id] is
    not [-1], the position when it is. *)
Theorem MakeSelfInfo_order (s : Sleeper) :
  let pack := PackCommandWithId (m_id s) in
  exists fourth,
    MakeSelfInfo s
    = pack (CmdSleeper (m_id s)) +:+ pack (CmdName (m_name s))
      +:+ pack (CmdType (m_sex s)) +:+ fourth
    /\ ((m_bed_id s <> -1 /\ fourth = pack (CmdSleep (m_bed_id s)))
        \/ (m_bed_id s = -1 /\ fourth = pack (CmdPos (m_pos s)))).
Proof.
  intros pack. unfold MakeSelfInfo. cbv zeta.
  change ("" +:+ ?a) with a. fold pack.
  destruct (Z.eqb_spec (m_bed_id s) (-1)) as [Hbed | Hbed]; cbn [negb];
    eexists; (split; [by rewrite !string_app_assoc|]); [right | left]; done.
Qed.

Lemma Stop_stopped w : m_is_stoped (this w) = true -> Stop w = (tt, w).
Proof. intros Hs. unfold Stop. run. by rewrite Hs. Qed.

(** The first [Stop]: the flag, then the four calls. *)
Lemma Stop_running w :
  m_is_stoped (this w) = false ->
  Stop w
  = (tt, mkWorld (set_is_stoped true (this w))
           (Leave (m_id (this w)) (m_room w))
           (calls w ++ [Room_Leave (m_id (this w)); sock_close; timer_cancel;
                        IPTrafficRecorder_OnConnectionClose (m_ip (this w))])).
Proof.
  intros Hs. unfold Stop. run. rewrite Hs. run.
  by rewrite <- !app_assoc.
Qed.

(** [Stop] is the only method that writes [m_is_stoped], and no method
    writes [m_id]. *)
Lemma Reader_frame_keeps_stoped msg w :
  m_is_stoped (this (Reader_frame msg w).2) = m_is_stoped (this w)
  /\ m_id (this (Reader_frame msg w).2) = m_id (this w).
Proof.
  rewrite Reader_frame_unfold. cbv zeta.
  destruct (ParseCommand msg) as [cmd|]; [|done].
  unfold visit. destruct cmd; run; try done.
  by destruct (Sleep _ _ _) as [[] r].
Qed.

(** A sleeper that the room does not admit is stopped by [Start]; the
    [Stop] of the violation observer then finds nothing left to do. *)
Lemma Start_refused_then_Stop w :
  m_is_stoped (this w) = false ->
  (Join (m_id (this w)) (m_room w)).1 = false ->
  (Start w).1 = false
  /\ calls_of (Start;; Stop) w
     = [IPTrafficRecorder_OnConnection (m_ip (this w));
        ViolationDetector_AddObserver "ip" (m_ip (this w));
        Room_Join (m_id (this w));
        Room_Leave (m_id (this w)); sock_close; timer_cancel;
        IPTrafficRecorder_OnConnectionClose (m_ip (this w))].
Proof.
  intros Hs Hjoin. unfold calls_of. rewrite Act_bind_run.
  unfold Start. run.
  destruct (Join (m_id (this w)) (m_room w)) as [joined r]. cbn in Hjoin. subst joined.
  cbn [negb]. run. rewrite Stop_running by done. run.
  rewrite Stop_stopped by done.
  split; [done|]. cbn [calls snd]. by rewrite <- !app_assoc, drop_calls.
Qed.

(** C4. [Stop] twice is [Stop] once. A stopped sleeper is left as it is, no
    call is made; after [Stop] the sleeper is stopped; and from a sleeper
    that is not stopped, the two calls of [Stop] together make one
    [Room::Leave], one close of the socket, one cancel of the timer and one
    [OnConnectionClose], in this order. *)
Theorem Stop_idempotent w :
  (Stop;; Stop) w = Stop w
  /\ (m_is_stoped (this w) = true -> Stop w = (tt, w))
  /\ m_is_stoped (this (Stop w).2) = true
  /\ (m_is_stoped (this w) = false ->
      calls_of (Stop;; Stop) w
      = [Room_Leave (m_id (this w)); sock_close; timer_cancel;
         IPTrafficRecorder_OnConnectionClose (m_ip (this w))]).
Proof.
  unfold calls_of. rewrite Act_bind_run.
  destruct (m_is_stoped (this w)) eqn:Hs.
  - rewrite !Stop_stopped by done. by repeat split.
  - rewrite (Stop_running w Hs). rewrite Stop_stopped by done.
    repeat split; try done. intros _. apply drop_calls.
Qed.
End SleeperProperties.

(** *** The theorems on the room with bed 5 taken *)

Lemma Reader_frame_sleep_witness :
  (m_bed_id (this (Reader_frame "sleep$5" busy_room).2) = -1
   /\ forall i m, Room_Deliver i m ∉ calls_of (Reader_frame "sleep$5") busy_room)
  /\ (m_bed_id (this (Reader_frame "sleep$4" busy_room).2) = 4
      /\ last (calls_of (Reader_frame "sleep$4") busy_room)
         = Some (Room_Deliver 10001 "sleep$4")).
Proof.
  assert (H5 : ParseCommand "sleep$5" = Some (CmdSleep 5)) by reflexivity.
  assert (H4 : ParseCommand "sleep$4" = Some (CmdSleep 4)) by reflexivity.
  split.
  - destruct (Reader_frame_sleep busy_room "sleep$5" 5 H5) as (_ & _ & H).
    exact H.
  - destruct (Reader_frame_sleep busy_room "sleep$4" 4 H4) as (_ & _ & H).
    exact H.
Defined.

Lemma Reader_frame_relay_witness :
  (Room_Agree 10001 ∈ calls_of (Reader_frame "agree$") busy_room
   /\ forall i m, Room_Deliver i m ∉ calls_of (Reader_frame "agree$") busy_room)
  /\ last (calls_of (Reader_frame "bogus") busy_room)
     = Some (Room_Deliver 10001 "bogus").
Proof.
  assert (Ha : ParseCommand "agree$" = Some CmdVoteAgree) by reflexivity.
  assert (Hb : ParseCommand "bogus" = Some CmdUnknown) by reflexivity.
  split.
  - exact (Reader_frame_relay busy_room "agree$" CmdVoteAgree Ha).
  - exact (proj1 (Reader_frame_relay busy_room "bogus" CmdUnknown Hb)).
Defined.

Lemma Stop_idempotent_witness :
  calls_of (Stop;; Stop) busy_room
  = [Room_Leave 10001; sock_close; timer_cancel;
     IPTrafficRecorder_OnConnectionClose "192.0.2.7"].
Proof.
  destruct (Stop_idempotent busy_room) as (_ & _ & _ & H).
  exact (H eq_refl).
Defined.

(** The scenario of the specification: after "name$Zed" and "pos$1,1" the
    snapshot ends with the position; after an accepted "sleep$7" it ends with
    the bed. *)
Example snapshot_scenario :
  let w1 := (Reader_frame "pos$1,1" (Reader_frame "name$Zed" busy_room).2).2 in
  let w2 := (Reader_frame "sleep$7" w1).2 in
  MakeSelfInfo (this w1)
  = "10001$sleeper$10001;10001$name$Zed;10001$type$0;10001$pos$1,1;"
  /\ MakeSelfInfo (this w2)
     = "10001$sleeper$10001;10001$name$Zed;10001$type$0;10001$sleep$7;"
  /\ m_room w2 = {[ 5 := 10000; 7 := 10001 ]}.
Proof. repeat split; vm_compute; reflexivity. Qed.

(** ** Further properties of the connection actor *)

Section SleeperExtras.
Context {R : Type} `{!Room R} `{!WheatCodec}.
Implicit Types (w : World R) (msg : string) (cmd : WheatCommand).

(** Runs the primitive actions of a method on a world. *)
Ltac run_act :=
  repeat (rewrite ?Act_bind_run, ?Act_ret_run;
          unfold get_this, set_this, do_call, room_do, room_ask;
          cbn [this m_room calls fst snd]).

(** All that one turn of the reader does to the calls and to the members
    that identify the sleeper. *)
Lemma Reader_frame_effect msg w :
  exists rest,
    calls (Reader_frame msg w).2
    = calls w ++ IPTrafficRecorder_OnData (m_ip (this w))
                   (Z.of_nat (String.length msg) * 8) :: rest
    /\ (relayed rest = [] \/ relayed rest = [msg])
    /\ forallb (frame_call (m_id (this w))) rest = true
    /\ m_id (this (Reader_frame msg w).2) = m_id (this w)
    /\ m_ip (this (Reader_frame msg w).2) = m_ip (this w)
    /\ m_is_stoped (this (Reader_frame msg w).2) = m_is_stoped (this w)
    /\ m_write_msgs (this (Reader_frame msg w).2) = m_write_msgs (this w).
Proof.
  rewrite Reader_frame_unfold. cbv zeta.
  destruct (ParseCommand msg) as [cmd|]; [|by exists []; cbn; auto 10].
  unfold visit.
  destruct cmd; run_act;
    try (destruct (Sleep (m_id (this w)) bed_id (m_room w)) as [[] r]; run_act);
    rewrite <- ?app_assoc; cbn [app];
    eexists; (split; [reflexivity|]); cbn;
    rewrite ?bool_decide_eq_true_2 by done; auto 10.
Qed.

Lemma calls_of_app {A} (m : Act R A) w new :
  calls (m w).2 = calls w ++ new -> calls_of m w = new.
Proof. unfold calls_of. intros ->. by rewrite drop_app_length. Qed.

Lemma frame_calls_quiet id rest :
  forallb (frame_call id) rest = true ->
  traffic rest = []
  /\ List.filter is_teardown rest = []
  /\ forall i m, Room_Deliver i m ∈ rest -> i = id.
Proof.
  induction rest as [|c rest IH]; cbn [forallb].
  - intros _. repeat split; try done. intros i m Hin. by apply elem_of_nil in Hin.
  - intros [Hc Hrest]%andb_true_iff. destruct (IH Hrest) as (Ht & Hf & Hd).
    repeat split.
    + destruct c; try discriminate Hc; exact Ht.
    + destruct c; try discriminate Hc; exact Hf.
    + intros i m [<- | Hin]%elem_of_cons; [|by eapply Hd].
      cbn in Hc. by apply bool_decide_eq_true in Hc.
Qed.

(** All that the reader does from its first frame to the [Stop] after the
    failed read. *)
Lemma Reader_effect frames : forall w,
  exists body,
    calls (Reader frames w).2
    = calls w ++ body ++ (if m_is_stoped (this w) then [] else teardown_of (this w))
    /\ traffic body = (fun msg => Z.of_nat (String.length msg) * 8) <$> frames
    /\ relayed body `sublist_of` frames
    /\ List.filter is_teardown body = []
    /\ (forall i m, Room_Deliver i m ∈ body -> i = m_id (this w))
    /\ m_is_stoped (this (Reader frames w).2) = true
    /\ m_id (this (Reader frames w).2) = m_id (this w)
    /\ m_ip (this (Reader frames w).2) = m_ip (this w)
    /\ m_write_msgs (this (Reader frames w).2) = m_write_msgs (this w).
Proof.
  induction frames as [|msg frames IH]; intros w.
  - exists []. cbn [Reader app fmap list_fmap].
    destruct (m_is_stoped (this w)) eqn:Hs.
    + rewrite Stop_stopped by done. cbn. rewrite app_nil_r.
      split; [done|]. split; [done|]. split; [constructor|]. split; [done|].
      split; [intros i m Hin; by apply elem_of_nil in Hin | done].
    + rewrite Stop_running by done. cbn.
      split; [done|]. split; [done|]. split; [constructor|]. split; [done|].
      split; [intros i m Hin; by apply elem_of_nil in Hin | done].
  - cbn [Reader]. rewrite Act_bind_run.
    destruct (Reader_frame msg w) as [[] w1] eqn:Hw1.
    destruct (Reader_frame_effect msg w) as (rest & Hcalls & Hrel & Hquiet & Hid & Hip & Hst & Hq).
    rewrite Hw1 in Hcalls, Hid, Hip, Hst, Hq. cbn [snd] in *.
    destruct (frame_calls_quiet _ _ Hquiet) as (Htr & Hfi & Hde).
    destruct (IH w1) as (body & Hc' & Ht' & Hr' & Hf' & Hd' & Hs' & Hid' & Hip' & Hq').
    exists (IPTrafficRecorder_OnData (m_ip (this w)) (Z.of_nat (String.length msg) * 8)
              :: rest ++ body).
    rewrite Hc', Hcalls, Hst. unfold teardown_of. rewrite Hid, Hip.
    split; [rewrite <- !app_assoc; cbn [app]; by rewrite <- !app_assoc|].
    split.
    { unfold traffic in *. cbn [omap list_omap]. rewrite omap_app, Htr, Ht'. reflexivity. }
    split.
    { unfold relayed in *. cbn [omap list_omap]. rewrite omap_app.
      destruct Hrel as [-> | ->]; [by apply sublist_cons | by apply sublist_skip]. }
    split.
    { cbn [List.filter is_teardown]. by rewrite List.filter_app, Hfi, Hf'. }
    split.
    { intros i m [Hin | [Hin | Hin]%elem_of_app]%elem_of_cons; [done | by eapply Hde|].
      rewrite <- Hid. by eapply Hd'. }
    repeat split; congruence.
Qed.

(** X12. Every frame read is recorded with the traffic recorder, eight bits
    per byte, in the order read and once, whether or not it parses; and a
    frame that [ParseCommand] rejects does nothing else: the sleeper and the
    room are left as they were and nothing is relayed. *)
Theorem Reader_traffic w (frames : list string) msg :
  traffic (calls_of (Reader frames) w)
  = (fun msg => Z.of_nat (String.length msg) * 8) <$> frames
  /\ (ParseCommand msg = None ->
      Reader_frame msg w
      = (tt, mkWorld (this w) (m_room w)
               (calls w ++ [IPTrafficRecorder_OnData (m_ip (this w))
                              (Z.of_nat (String.length msg) * 8)]))).
Proof.
  split.
  - destruct (Reader_effect frames w) as (body & Hcalls & Htraffic & _).
    rewrite (calls_of_app _ _ _ Hcalls). unfold traffic in *.
    rewrite omap_app, Htraffic.
    by destruct (m_is_stoped (this w)); cbn; rewrite app_nil_r.
  - intros Hparse. by rewrite Reader_frame_unfold, Hparse.
Qed.

(** X13. The frames passed to [Room::Deliver] by the reader are frames it
    read, unchanged, in the order read and at most once each; all are
    passed with the sleeper's own id. *)
Theorem Reader_relays_in_order w (frames : list string) :
  relayed (calls_of (Reader frames) w) `sublist_of` frames
  /\ forall i m, Room_Deliver i m ∈ calls_of (Reader frames) w -> i = m_id (this w).
Proof.
  destruct (Reader_effect frames w) as (body & Hcalls & _ & Hrel & _ & Hid & _).
  rewrite (calls_of_app _ _ _ Hcalls). split.
  - unfold relayed in *. rewrite omap_app.
    replace (omap _ (if m_is_stoped (this w) then [] else teardown_of (this w)))
      with (@nil string) by (by destruct (m_is_stoped (this w))).
    by rewrite app_nil_r.
  - intros i m [Hin | Hin]%elem_of_app; [by eapply Hid|].
    destruct (m_is_stoped (this w)); [by apply elem_of_nil in Hin|].
    unfold teardown_of in Hin.
    repeat (apply elem_of_cons in Hin as [Hin | Hin]; [discriminate Hin|]).
    by apply elem_of_nil in Hin.
Qed.

(** X14. The reader leaves a sleeper stopped. When it was not stopped
    before, the calls of [Stop] are the last four calls and are made nowhere
    else; the id, the address and the queue of frames to write are those of
    the start. *)
Theorem Reader_ends_stopped w (frames : list string) :
  m_is_stoped (this w) = false ->
  exists body,
    calls_of (Reader frames) w = body ++ teardown_of (this w)
    /\ List.filter is_teardown body = []
    /\ m_is_stoped (this (Reader frames w).2) = true
    /\ m_id (this (Reader frames w).2) = m_id (this w)
    /\ m_ip (this (Reader frames w).2) = m_ip (this w)
    /\ m_write_msgs (this (Reader frames w).2) = m_write_msgs (this w).
Proof.
  intros Hs.
  destruct (Reader_effect frames w) as (body & Hcalls & _ & _ & Hf & _ & Hrest).
  rewrite Hs in Hcalls. exists body. by rewrite (calls_of_app _ _ _ Hcalls).
Qed.

(** X15. One turn of the reader changes neither the id, the address, the
    stopped flag nor the queue of frames to write, and it changes [m_bed_id]
    only on a sleep frame that the room grants, to the bed of that frame. *)
Theorem Reader_frame_identity w msg :
  let w' := (Reader_frame msg w).2 in
  m_id (this w') = m_id (this w)
  /\ m_ip (this w') = m_ip (this w)
  /\ m_is_stoped (this w') = m_is_stoped (this w)
  /\ m_write_msgs (this w') = m_write_msgs (this w)
  /\ (m_bed_id (this w') <> m_bed_id (this w) ->
      exists bed,
        ParseCommand msg = Some (CmdSleep bed)
        /\ (Sleep (m_id (this w)) bed (m_room w)).1 = true
        /\ m_bed_id (this w') = bed).
Proof.
  intros w'. subst w'.
  destruct (Reader_frame_effect msg w) as (rest & _ & _ & _ & Hid & Hip & Hst & Hq).
  do 4 (split; [done|]). clear Hid Hip Hst Hq.
  rewrite Reader_frame_unfold. cbv zeta.
  destruct (ParseCommand msg) as [cmd|]; [|done].
  unfold visit. destruct cmd; run_act; try done.
  destruct (Sleep (m_id (this w)) bed_id (m_room w)) as [[] r] eqn:HS; run_act; [|done].
  intros _. exists bed_id. by rewrite HS.
Qed.

(** X16. A getup frame calls [Room::GetUp] and is relayed, but the sleeper
    itself is left as it was: [m_bed_id] keeps the bed, and the next
    [MakeSelfInfo] is the same as before. *)
Theorem Reader_frame_getup w msg :
  ParseCommand msg = Some CmdGetup ->
  let w' := (Reader_frame msg w).2 in
  calls_of (Reader_frame msg) w
  = [IPTrafficRecorder_OnData (m_ip (this w)) (Z.of_nat (String.length msg) * 8);
     Room_GetUp (m_id (this w)); Room_Deliver (m_id (this w)) msg]
  /\ this w' = this w
  /\ MakeSelfInfo (this w') = MakeSelfInfo (this w).
Proof.
  intros Hparse w'. subst w'. unfold calls_of.
  rewrite Reader_frame_unfold, Hparse. cbv zeta. unfold visit. run_act.
  by rewrite <- !app_assoc, drop_app_length.
Qed.

(** X17. [Start] tells the traffic recorder of the connection, registers its
    observer and asks the room to admit the sleeper, in this order. It goes
    on to spawn the coroutines exactly when the room admits it; when the
    room refuses, it has stopped the sleeper on return, with the calls of
    [Stop] made once. *)
Theorem Start_outcome w :
  m_is_stoped (this w) = false ->
  let joined := (Join (m_id (this w)) (m_room w)).1 in
  (Start w).1 = joined
  /\ m_is_stoped (this (Start w).2) = negb joined
  /\ calls_of Start w
     = [IPTrafficRecorder_OnConnection (m_ip (this w));
        ViolationDetector_AddObserver "ip" (m_ip (this w));
        Room_Join (m_id (this w))]
       ++ (if joined then [] else teardown_of (this w)).
Proof.
  intros Hs joined. subst joined. unfold calls_of, Start. run_act.
  destruct (Join (m_id (this w)) (m_room w)) as [[] r]; cbn [negb fst]; run_act.
  - split; [done|]. split; [done|]. by rewrite <- !app_assoc, drop_app_length.
  - rewrite Stop_running by done. run_act.
    split; [done|]. split; [done|]. by rewrite <- !app_assoc, drop_app_length.
Qed.

(** *** The sleeper under any order of operations *)

Lemma Stop_keeps w :
  m_id (this (Stop w).2) = m_id (this w)
  /\ m_ip (this (Stop w).2) = m_ip (this w)
  /\ m_write_msgs (this (Stop w).2) = m_write_msgs (this w)
  /\ (m_is_stoped (this w) = true -> m_is_stoped (this (Stop w).2) = true).
Proof.
  destruct (m_is_stoped (this w)) eqn:Hs.
  - by rewrite Stop_stopped.
  - by rewrite Stop_running.
Qed.

Lemma Stop_torn_down w : torn_down_once w -> torn_down_once (Stop w).2.
Proof.
  unfold torn_down_once. intros Hw.
  destruct (m_is_stoped (this w)) eqn:Hs.
  - rewrite Stop_stopped by done. cbn [snd]. by rewrite Hs.
  - rewrite Stop_running by done. cbn [snd calls this].
    rewrite List.filter_app, Hw. reflexivity.
Qed.

Lemma step_torn_down (a : Actor (R:=R)) op :
  torn_down_once (world a) -> torn_down_once (world (step a op)).
Proof.
  intros Ha. destruct op as [msg | write_ok | msg | ]; cbn [step world].
  - unfold torn_down_once in *. unfold Sleeper_Deliver. run_act.
    by rewrite List.filter_app, Ha, app_nil_r.
  - destruct (writer_returned a); [done|].
    unfold Writer_turn.
    destruct (sock_is_open (world a)); [|done].
    destruct (m_write_msgs (this (world a))) as [|front q]; [done|].
    destruct write_ok; [done|].
    rewrite Act_bind_run. pose proof (Stop_torn_down _ Ha) as H'.
    by destruct (Stop (world a)) as [[] w'].
  - unfold torn_down_once in *.
    destruct (Reader_frame_effect msg (world a))
      as (rest & -> & _ & Hquiet & Hid & Hip & -> & _).
    destruct (frame_calls_quiet _ _ Hquiet) as (_ & Hf & _).
    rewrite List.filter_app. cbn [List.filter is_teardown].
    rewrite Hf, app_nil_r, Ha. unfold teardown_of. by rewrite Hid, Hip.
  - by apply Stop_torn_down.
Qed.

Lemma run_torn_down ops : forall a : Actor (R:=R),
  torn_down_once (world a) -> torn_down_once (world (run ops a)).
Proof.
  induction ops as [|op ops IH]; intros a Ha; [done|].
  cbn [run foldl]. apply IH. by apply step_torn_down.
Qed.

Lemma torn_down_socket w :
  torn_down_once w -> sock_is_open w = negb (m_is_stoped (this w)).
Proof.
  unfold torn_down_once, sock_is_open. intros Hw.
  assert (Hex : forall cs, existsb is_sock_close cs
                           = existsb is_sock_close (List.filter is_teardown cs)).
  { induction cs as [|c cs IH]; [done|]. cbn [existsb List.filter].
    destruct c; cbn; by rewrite ?IH. }
  rewrite Hex, Hw. by destruct (m_is_stoped (this w)).
Qed.

(** A turn of the writer, with the [Stop] of the handler run. *)
Lemma Writer_turn_cases write_ok w :
  Writer_turn write_ok w
  = if sock_is_open w then
      match m_write_msgs (this w) with
      | [] => ((None, Writer_waiting), w)
      | front :: _ =>
          if write_ok then
            ((Some front, Writer_running),
             mkWorld (pop_write_msg (this w)) (m_room w) (calls w))
          else ((None, Writer_returned), (Stop w).2)
      end
    else ((None, Writer_returned), w).
Proof.
  unfold Writer_turn. destruct (sock_is_open w); [|done].
  destruct (m_write_msgs (this w)); [done|]. destruct write_ok; [done|].
  rewrite Act_bind_run. by destruct (Stop w) as [[] w'].
Qed.

(** What is written and what waits to be written, together. *)
Lemma step_pipeline (a : Actor (R:=R)) op :
  written (step a op) ++ m_write_msgs (this (world (step a op)))
  = (written a ++ m_write_msgs (this (world a))) ++ delivered [op].
Proof.
  destruct op as [msg | write_ok | msg | ]; cbn [step world written delivered omap list_omap].
  - unfold Sleeper_Deliver. run_act. cbn. by rewrite app_assoc.
  - rewrite app_nil_r. destruct (writer_returned a); [done|].
    rewrite Writer_turn_cases.
    destruct (Stop_keeps (world a)) as (_ & _ & Hkeep & _).
    destruct (sock_is_open (world a)), (m_write_msgs (this (world a))) as [|front q] eqn:Hq,
      write_ok; cbn [world written this m_write_msgs pop_write_msg tail];
      rewrite ?app_nil_r, ?Hkeep, ?Hq, <- ?app_assoc, ?app_nil_r; done.
  - rewrite app_nil_r.
    by destruct (Reader_frame_effect msg (world a)) as (? & _ & _ & _ & _ & _ & _ & ->).
  - rewrite app_nil_r. by destruct (Stop_keeps (world a)) as (_ & _ & -> & _).
Qed.

(** X18. Whatever the order in which frames are handed to [Deliver], the
    writer takes its turns, the reader handles frames and [Stop] is called:
    the frames written to the socket followed by the frames still queued are
    the frames that were there at the start followed by the frames
    delivered, in the order of delivery. No frame is lost, doubled or
    reordered on its way through the queue. *)
Theorem Writer_fifo (ops : list Op) (a : Actor (R:=R)) :
  written (run ops a) ++ m_write_msgs (this (world (run ops a)))
  = written a ++ m_write_msgs (this (world a)) ++ delivered ops.
Proof.
  revert a. induction ops as [|op ops IH]; intros a.
  - cbn. by rewrite app_nil_r.
  - cbn [run foldl]. change (foldl step (step a op) ops) with (run ops (step a op)).
    rewrite IH, app_assoc, step_pipeline.
    change (op :: ops) with ([op] ++ ops). unfold delivered.
    by rewrite omap_app, <- !app_assoc.
Qed.

(** X19. For a sleeper that is not stopped and has made none of the calls
    of [Stop], whatever the operations and their order: the calls of [Stop]
    are made once, in order, if the sleeper ends stopped, and not at all if
    it does not; and its socket is open exactly when it is not stopped. A
    failed read, a failed write and a violation together tear the
    connection down once. *)
Theorem teardown_once (ops : list Op) (a : Actor (R:=R)) :
  m_is_stoped (this (world a)) = false ->
  List.filter is_teardown (calls (world a)) = [] ->
  let w' := world (run ops a) in
  List.filter is_teardown (calls w')
  = (if m_is_stoped (this w') then teardown_of (this w') else [])
  /\ sock_is_open w' = negb (m_is_stoped (this w')).
Proof.
  intros Hs Hcalls w'.
  assert (Ha : torn_down_once (world a)).
  { unfold torn_down_once. by rewrite Hs. }
  pose proof (run_torn_down ops a Ha) as Hw'.
  split; [exact Hw' | by apply torn_down_socket].
Qed.

Lemma step_stopped (a : Actor (R:=R)) op :
  torn_down_once (world a) ->
  m_is_stoped (this (world a)) = true ->
  m_is_stoped (this (world (step a op))) = true
  /\ written (step a op) = written a.
Proof.
  intros Ha Hs.
  destruct op as [msg | write_ok | msg | ]; cbn [step world written].
  - by unfold Sleeper_Deliver; run_act.
  - destruct (writer_returned a); [done|].
    rewrite Writer_turn_cases, (torn_down_socket _ Ha), Hs. cbn.
    by rewrite app_nil_r.
  - by destruct (Reader_frame_effect msg (world a)) as (? & _ & _ & _ & _ & _ & -> & _).
  - split; [|done]. by apply Stop_keeps.
Qed.

(** X20. Once the sleeper is stopped nothing more is written to its socket,
    whatever happens afterwards: the frames still in the queue stay there. *)
Theorem nothing_written_after_stop (ops : list Op) (a : Actor (R:=R)) :
  torn_down_once (world a) ->
  m_is_stoped (this (world a)) = true ->
  written (run ops a) = written a.
Proof.
  revert a. induction ops as [|op ops IH]; intros a Ha Hs; [done|].
  cbn [run foldl]. change (foldl step (step a op) ops) with (run ops (step a op)).
  destruct (step_stopped a op Ha Hs) as [Hs' Hw].
  rewrite IH; [done | by apply step_torn_down | done].
Qed.

(** X21. With the socket open, as many turns of the writer as there are
    frames in the queue, each write completing, write the queue in its
    order and leave it empty; at its next turn the writer waits on the
    timer. *)
Theorem Writer_drains (a : Actor (R:=R)) :
  sock_is_open (world a) = true ->
  writer_returned a = false ->
  let queue := m_write_msgs (this (world a)) in
  let a' := run (replicate (length queue) (Op_Writer true)) a in
  written a' = written a ++ queue
  /\ m_write_msgs (this (world a')) = []
  /\ calls (world a') = calls (world a)
  /\ Writer_turn true (world a') = ((None, Writer_waiting), world a').
Proof.
  intros Hopen Hret queue a'. subst queue a'.
  remember (m_write_msgs (this (world a))) as queue eqn:Hq.
  revert a Hopen Hret Hq. induction queue as [|front queue IH]; intros a Hopen Hret Hq.
  - cbn. rewrite app_nil_r, Writer_turn_cases. by rewrite Hopen, <- Hq.
  - cbn [length replicate run foldl].
    change (foldl step ?b ?l) with (run l b).
    assert (Hstep : step a (Op_Writer true)
                    = mkActor (mkWorld (pop_write_msg (this (world a)))
                                 (m_room (world a)) (calls (world a)))
                        (written a ++ [front]) false).
    { cbn [step]. by rewrite Hret, Writer_turn_cases, Hopen, <- Hq. }
    rewrite Hstep.
    specialize (IH (mkActor (mkWorld (pop_write_msg (this (world a)))
                               (m_room (world a)) (calls (world a)))
                      (written a ++ [front]) false)).
    cbn [world written writer_returned this calls pop_write_msg m_write_msgs] in IH.
    rewrite <- Hq in IH. cbn [tail] in IH.
    destruct IH as (Hw & Hrest & Hcalls & Hturn); [done | done | done |].
    by rewrite Hw, <- app_assoc.
Qed.
End SleeperExtras.

(** *** The further properties on the room with bed 5 taken *)

Lemma Reader_frame_getup_witness :
  let w := mkWorld (set_bed_id 5 newcomer) ({[ 5 := 10001 ]} : gmap Z SleeperId) [] in
  calls_of (Reader_frame "getup$") w
  = [IPTrafficRecorder_OnData "192.0.2.7" 48; Room_GetUp 10001;
     Room_Deliver 10001 "getup$"]
  /\ this (Reader_frame "getup$" w).2 = set_bed_id 5 newcomer
  /\ MakeSelfInfo (this (Reader_frame "getup$" w).2)
     = MakeSelfInfo (set_bed_id 5 newcomer).
Proof.
  intros w.
  assert (Hg : ParseCommand "getup$" = Some CmdGetup) by reflexivity.
  exact (Reader_frame_getup w "getup$" Hg).
Defined.

Lemma Reader_ends_stopped_witness :
  exists body,
    calls_of (Reader ["name$Zed"; "agree$"]) busy_room
    = body ++ teardown_of newcomer
    /\ List.filter is_teardown body = []
    /\ m_is_stoped (this (Reader ["name$Zed"; "agree$"] busy_room).2) = true
    /\ m_id (this (Reader ["name$Zed"; "agree$"] busy_room).2) = 10001
    /\ m_ip (this (Reader ["name$Zed"; "agree$"] busy_room).2) = "192.0.2.7"
    /\ m_write_msgs (this (Reader ["name$Zed"; "agree$"] busy_room).2) = [].
Proof. apply (Reader_ends_stopped busy_room ["name$Zed"; "agree$"]). reflexivity. Defined.

Lemma Start_outcome_witness :
  (Start busy_room).1 = true
  /\ m_is_stoped (this (Start busy_room).2) = false
  /\ calls_of Start busy_room
     = [IPTrafficRecorder_OnConnection "192.0.2.7";
        ViolationDetector_AddObserver "ip" "192.0.2.7"; Room_Join 10001] ++ [].
Proof. exact (Start_outcome busy_room eq_refl). Defined.

Lemma teardown_once_witness :
  let a := mkActor busy_room [] false in
  let ops := [Op_Deliver "hello"; Op_Writer false; Op_Frame "name$Zed"; Op_Stop;
              Op_Writer true] in
  List.filter is_teardown (calls (world (run ops a))) = teardown_of newcomer
  /\ sock_is_open (world (run ops a)) = false.
Proof.
  intros a ops.
  exact (teardown_once ops a eq_refl eq_refl).
Defined.

Lemma nothing_written_after_stop_witness :
  let a := mkActor (Stop busy_room).2 ["sent"] false in
  written (run [Op_Deliver "late"; Op_Writer true; Op_Writer true] a) = ["sent"].
Proof.
  intros a.
  apply (nothing_written_after_stop [Op_Deliver "late"; Op_Writer true; Op_Writer true] a);
    reflexivity.
Defined.

Lemma Writer_drains_witness :
  let a := run [Op_Deliver "one"; Op_Deliver "two"] (mkActor busy_room [] false) in
  written (run (replicate 2 (Op_Writer true)) a) = [] ++ ["one"; "two"]
  /\ m_write_msgs (this (world (run (replicate 2 (Op_Writer true)) a))) = [].
Proof.
  intros a.
  destruct (Writer_drains a eq_refl eq_refl) as (Hw & Hq & _).
  split; [exact Hw | exact Hq].
Defined.

(** ** The ids of the sleepers *)

Lemma wrap_SleeperId_small z : - 2 ^ 63 <= z < 2 ^ 63 -> wrap_SleeperId z = z.
Proof. intros Hz. unfold wrap_SleeperId. rewrite Z.mod_small; lia. Qed.

Lemma MakeSleeperIds_from n : forall g,
  - 2 ^ 63 <= g ->
  g + Z.of_nat n <= 2 ^ 63 ->
  (MakeSleeperIds n g).1 = (fun k => g + Z.of_nat k) <$> seq 0 n.
Proof.
  induction n as [|n IH]; intros g Hlo Hhi; [done|].
  cbn [MakeSleeperIds MakeSleeperId].
  destruct (MakeSleeperIds n (wrap_SleeperId (g + 1))) as [ids g'] eqn:Hids.
  cbn [fst seq fmap list_fmap]. rewrite Z.add_0_r. f_equal.
  destruct n as [|n].
  { cbn in Hids. by injection Hids as <- _. }
  rewrite wrap_SleeperId_small in Hids by lia.
  specialize (IH (g + 1)). rewrite Hids in IH. cbn [fst] in IH.
  rewrite IH by lia. rewrite <- (fmap_S_seq 0), <- list_fmap_compose.
  apply list_fmap_ext. intros _ k _. cbn. lia.
Qed.

(** X22. The ids made by successive calls of [MakeSleeperId], starting from
    the initial counter, are 10000, 10001, 10002 and so on: the [k]-th call
    returns [10000 + k], so each id is larger than all earlier ones, no id is
    made twice and none is below 10000. This holds as long as the 64-bit
    counter has not wrapped around. *)
Theorem MakeSleeperIds_fresh (n : nat) :
  Z.of_nat n <= 2 ^ 63 - global_sleeper_id0 ->
  let ids := (MakeSleeperIds n global_sleeper_id0).1 in
  ids = (fun k => 10000 + Z.of_nat k) <$> seq 0 n
  /\ NoDup ids
  /\ Forall (fun id => 10000 <= id) ids.
Proof.
  intros Hn ids. subst ids. unfold global_sleeper_id0 in *.
  rewrite MakeSleeperIds_from by lia.
  split; [done|]. split.
  - apply NoDup_fmap_2; [intros j k Hjk; lia | apply NoDup_seq].
  - apply Forall_fmap, Forall_forall. intros k _. cbn. lia.
Qed.

Lemma MakeSleeperIds_fresh_witness :
  (MakeSleeperIds 3 global_sleeper_id0).1 = [10000; 10001; 10002].
Proof.
  assert (H3 : Z.of_nat 3 <= 2 ^ 63 - global_sleeper_id0) by (vm_compute; discriminate).
  exact (proj1 (MakeSleeperIds_fresh 3 H3)).
Defined.
